(** * Stream session manager of [server.js]

    A shallow embedding of the Node.js relay server: the module-level
    [streams] Map, [startStream], [stopStream], the HTTP handlers for
    [/api/start-stream], [/api/stop-stream] and [/api/streams], and the
    callbacks that [startStream] registers on the transcoder child process
    and on the WebSocket server.

    Node runs every callback to completion on one thread, so the program is
    a state machine: one [Event] of the environment (an HTTP request, a chunk
    on the child's stdout, a viewer connecting, ...) runs one handler on the
    [State].  What the libraries [ws] and [child_process] decide (does the
    constructor throw, does the launch fail) is part of the event.

    Requests are the well-formed ones, [{ rtspUrl : string, wsPort : integer }].
    Events that end the Node process are not events of the model: SIGINT, and
    an ['error'] emitted on a WebSocket server or socket, for which the
    program registers no listener. *)

From Stdlib Require Import ZArith String Ascii List Bool Lia.
From stdpp Require Import base option list strings pretty.

Local Open Scope Z_scope.

(** ** JavaScript strings

    Text is modelled as Rocq byte strings.  [includes] is
    [String.prototype.includes]; [trim] is [String.prototype.trim] on ASCII
    text: it strips tab, LF, VT, FF, CR and space (the white space outside
    ASCII is not modelled). *)

Module JsString.

Fixpoint includes (s needle : string) : bool :=
  String.prefix needle s ||
  match s with
  | EmptyString => false
  | String _ rest => includes rest needle
  end.

Definition isWhiteSpace (c : ascii) : bool :=
  let n := nat_of_ascii c in
  ((9 <=? n) && (n <=? 13))%nat || (n =? 32)%nat.

Fixpoint trimStart (s : string) : string :=
  match s with
  | EmptyString => EmptyString
  | String c rest => if isWhiteSpace c then trimStart rest else s
  end.

Fixpoint trimEnd (s : string) : string :=
  match s with
  | EmptyString => EmptyString
  | String c rest =>
      match trimEnd rest with
      | EmptyString => if isWhiteSpace c then EmptyString else String c EmptyString
      | rest' => String c rest'
      end
  end.

Definition trim (s : string) : string := trimEnd (trimStart s).

(** Template-literal rendering of an integer and of an exit code
    ([null] when the child was ended by a signal). *)
Definition ofNumber (n : Z) : string := pretty n.

Definition ofCode (code : option Z) : string :=
  match code with
  | Some n => ofNumber n
  | None => "null"
  end.

End JsString.

(** ** JavaScript [Map]

    A [Map] iterates in insertion order, and [Array.from(streams.entries())]
    exposes that order, so the Map is an association list: [set] on a present
    key replaces the value in place, on an absent key appends. *)

Module JsMap.
Section WithValue.
Context {V : Type}.

Definition t := list (Z * V).

Definition empty : t := [].

Fixpoint get (k : Z) (m : t) : option V :=
  match m with
  | [] => None
  | (k', v) :: m' => if Z.eqb k' k then Some v else get k m'
  end.

Definition has (k : Z) (m : t) : bool :=
  match get k m with
  | Some _ => true
  | None => false
  end.

Fixpoint set (k : Z) (v : V) (m : t) : t :=
  match m with
  | [] => [(k, v)]
  | (k', v') :: m' =>
      if Z.eqb k' k then (k, v) :: m' else (k', v') :: set k v m'
  end.

Fixpoint delete (k : Z) (m : t) : t :=
  match m with
  | [] => []
  | (k', v') :: m' =>
      if Z.eqb k' k then delete k m' else (k', v') :: delete k m'
  end.

Definition entries (m : t) : list (Z * V) := m.

Definition keys (m : t) : list Z := map fst m.

(** Number of entries stored under [k]. *)
Definition count (k : Z) (m : t) : nat :=
  length (List.filter (fun kv => Z.eqb (fst kv) k) m).

End WithValue.
Arguments t : clear implicits.
End JsMap.

(** ** Data model *)

(** A chunk read from a pipe of the child process (a Node [Buffer]). *)
Definition Buffer := string.

(** The object stored in [streams] by [startStream].  [wss] and [ffmpeg] are
    references to the WebSocket server and the child process. *)
Record StreamInfo := {
  rtspUrl : string;
  wss : nat;
  ffmpeg : nat;
  totalBytes : Z
}.

(** A viewer socket as held in [wss.clients].  [readyState] is 1 when OPEN,
    2 when CLOSING, 3 when CLOSED; [sent] lists the frames passed to
    [client.send], oldest first: the socket delivers them in that order. *)
Record WebSocket := {
  ws_server : nat;
  readyState : Z;
  sent : list Buffer
}.

(** A [WebSocketServer] object: the port it listens on, whether [close()]
    was called, whether the ['connection'] handler of [startStream] is
    registered, and the set [wss.clients] in insertion order. *)
Record WebSocketServer := {
  wss_port : Z;
  wss_closed : bool;
  wss_on_connection : bool;
  wss_clients : list nat
}.

(** A [ChildProcess] object returned by [spawn], with the variables of the
    [startStream] call that its handlers close over: [wsPort], [wss] and the
    local [totalBytes].  [cp_killed] records that [kill('SIGTERM')] was
    called on it. *)
Record ChildProcess := {
  cp_rtspUrl : string;
  cp_wsPort : Z;
  cp_wss : nat;
  cp_totalBytes : Z;
  cp_killed : bool
}.

Inductive Line :=
| Log (text : string)
| Error (text : string).

Record State := {
  streams : JsMap.t StreamInfo;
  servers : list WebSocketServer;
  children : list ChildProcess;
  sockets : list WebSocket;
  console : list Line
}.

Definition init : State :=
  {| streams := JsMap.empty; servers := []; children := []; sockets := [];
     console := [] |}.

(** ** Results and responses *)

(** The object returned by [startStream] and [stopStream], and written by the
    handlers' failure branches. *)
Record Result := {
  success : bool;
  message : string;
  ws_url : option string;
  port : option Z
}.

Record StreamEntry := {
  se_port : Z;
  se_rtsp_url : string;
  se_ws_url : string;
  se_active : bool
}.

Inductive Body :=
| JsonResult (r : Result)
| JsonStreams (l : list StreamEntry).

Record Response := {
  status : Z;
  body : Body
}.

(** A call either returns a value or throws an [Error] with a message. *)
Inductive Completion (A : Type) :=
| Returned (a : A)
| Thrown (msg : string).
Arguments Returned {A} a.
Arguments Thrown {A} msg.

(** What [new WebSocketServer({ port })] does: it returns the server object
    (a bind error such as EADDRINUSE is emitted later, on the object), or it
    throws (a port outside 0..65535, a missing port). *)
Inductive Listen :=
| Listens
| ListenThrows (msg : string).

(** What [spawn(FFMPEG_PATH, args)] does: the child runs; or the launch fails
    (ENOENT, EACCES: the executable is not found or may not be run) and the
    child object is returned all the same, its ['error'] event coming on a
    later tick; or [spawn] throws (an argument with a NUL byte, another errno
    of the OS). *)
Inductive Spawn :=
| SpawnRuns
| SpawnFails (err : string)
| SpawnThrows (msg : string).

(** ** Field updates *)

Definition with_streams (m : JsMap.t StreamInfo) (s : State) : State :=
  {| streams := m; servers := servers s; children := children s;
     sockets := sockets s; console := console s |}.

Definition with_servers (l : list WebSocketServer) (s : State) : State :=
  {| streams := streams s; servers := l; children := children s;
     sockets := sockets s; console := console s |}.

Definition with_children (l : list ChildProcess) (s : State) : State :=
  {| streams := streams s; servers := servers s; children := l;
     sockets := sockets s; console := console s |}.

Definition with_sockets (l : list WebSocket) (s : State) : State :=
  {| streams := streams s; servers := servers s; children := children s;
     sockets := l; console := console s |}.

Definition console_log (text : string) (s : State) : State :=
  {| streams := streams s; servers := servers s; children := children s;
     sockets := sockets s; console := console s ++ [Log text] |}.

Definition console_error (text : string) (s : State) : State :=
  {| streams := streams s; servers := servers s; children := children s;
     sockets := sockets s; console := console s ++ [Error text] |}.

(** ** The libraries' objects *)

(** [new WebSocketServer({ port })]: a fresh server, no handler yet. *)
Definition new_WebSocketServer (wsPort : Z) (s : State) : State * nat :=
  (with_servers
     (servers s ++ [{| wss_port := wsPort; wss_closed := false;
                       wss_on_connection := false; wss_clients := [] |}]) s,
   length (servers s)).

(** [spawn(...)] followed by the registration of the four handlers, which
    close over [rtspUrl], [wsPort], [wss] and [let totalBytes = 0]. *)
Definition spawn (rtspUrl : string) (wsPort : Z) (wss : nat) (s : State)
  : State * nat :=
  (with_children
     (children s ++ [{| cp_rtspUrl := rtspUrl; cp_wsPort := wsPort;
                        cp_wss := wss; cp_totalBytes := 0;
                        cp_killed := false |}]) s,
   length (children s)).

(** [wss.on('connection', ...)] *)
Definition on_connection (w : nat) (s : State) : State :=
  with_servers
    (alter (fun srv => {| wss_port := wss_port srv; wss_closed := wss_closed srv;
                          wss_on_connection := true;
                          wss_clients := wss_clients srv |}) w (servers s)) s.

(** [ffmpeg.kill('SIGTERM')] *)
Definition kill (c : nat) (s : State) : State :=
  with_children
    (alter (fun ch => {| cp_rtspUrl := cp_rtspUrl ch; cp_wsPort := cp_wsPort ch;
                         cp_wss := cp_wss ch; cp_totalBytes := cp_totalBytes ch;
                         cp_killed := true |}) c (children s)) s.

(** [wss.close()]: the server stops listening; the sockets in [wss.clients]
    are left as they are (the behaviour of [ws] since version 8, the first
    to export [WebSocketServer] by that name). *)
Definition close (w : nat) (s : State) : State :=
  with_servers
    (alter (fun srv => {| wss_port := wss_port srv; wss_closed := true;
                          wss_on_connection := wss_on_connection srv;
                          wss_clients := wss_clients srv |}) w (servers s)) s.

(** [client.send(data)] *)
Definition send (data : Buffer) (ws : WebSocket) : WebSocket :=
  {| ws_server := ws_server ws; readyState := readyState ws;
     sent := sent ws ++ [data] |}.

(** ** [startStream] and [stopStream] *)

Definition ws_url_of (wsPort : Z) : string :=
  "ws://127.0.0.1:" +:+ JsString.ofNumber wsPort.

Definition startStream (rtspUrl : string) (wsPort : Z)
    (listen : Listen) (launch : Spawn) (s : State)
  : State * Completion Result :=
  let s := console_log ("Starting stream: " +:+ rtspUrl +:+ " on port "
                        +:+ JsString.ofNumber wsPort) s in
  match listen with
  | ListenThrows msg => (s, Thrown msg)
  | Listens =>
      let '(s, wss) := new_WebSocketServer wsPort s in
      match launch with
      | SpawnThrows msg => (s, Thrown msg)
      | SpawnRuns | SpawnFails _ =>
          let '(s, ffmpeg) := spawn rtspUrl wsPort wss s in
          let s := with_streams
                     (JsMap.set wsPort
                        {| rtspUrl := rtspUrl; wss := wss; ffmpeg := ffmpeg;
                           totalBytes := 0 |} (streams s)) s in
          let s := on_connection wss s in
          (s, Returned {| success := true;
                          message := "Stream started on port "
                                     +:+ JsString.ofNumber wsPort;
                          ws_url := Some (ws_url_of wsPort);
                          port := Some wsPort |})
      end
  end.

Definition stopStream (wsPort : Z) (s : State) : State * Result :=
  match JsMap.get wsPort (streams s) with
  | None =>
      (s, {| success := false;
             message := "No stream found on port " +:+ JsString.ofNumber wsPort;
             ws_url := None; port := None |})
  | Some stream =>
      let s := kill (ffmpeg stream) s in
      let s := close (wss stream) s in
      let s := with_streams (JsMap.delete wsPort (streams s)) s in
      (s, {| success := true;
             message := "Stream on port " +:+ JsString.ofNumber wsPort
                        +:+ " stopped";
             ws_url := None; port := Some wsPort |})
  end.

(** ** Callbacks registered by [startStream] *)

(** [wss.clients.forEach(client => { if (client.readyState === 1)
    client.send(data) })] *)
Definition broadcast (data : Buffer) (clients : list nat)
    (socks : list WebSocket) : list WebSocket :=
  fold_left
    (fun socks client =>
       match socks !! client with
       | Some ws => if readyState ws =? 1 then <[client := send data ws]> socks
                    else socks
       | None => socks
       end)
    clients socks.

Definition clients_of (w : nat) (s : State) : list nat :=
  match servers s !! w with
  | Some srv => wss_clients srv
  | None => []
  end.

(** [ffmpeg.stdout.on('data', ...)] of child [c]. *)
Definition on_stdout_data (c : nat) (data : Buffer) (s : State) : State :=
  match children s !! c with
  | None => s
  | Some ch =>
      let s := with_children
                 (<[c := {| cp_rtspUrl := cp_rtspUrl ch;
                            cp_wsPort := cp_wsPort ch; cp_wss := cp_wss ch;
                            cp_totalBytes :=
                              cp_totalBytes ch + Z.of_nat (String.length data);
                            cp_killed := cp_killed ch |}]> (children s)) s in
      with_sockets (broadcast data (clients_of (cp_wss ch) s) (sockets s)) s
  end.

(** [ffmpeg.stderr.on('data', ...)] of child [c]. *)
Definition on_stderr_data (c : nat) (data : Buffer) (s : State) : State :=
  match children s !! c with
  | None => s
  | Some ch =>
      let msg := data in
      if negb (JsString.includes msg "frame=") then
        console_log ("FFmpeg [" +:+ JsString.ofNumber (cp_wsPort ch) +:+ "]: "
                     +:+ JsString.trim msg) s
      else s
  end.

(** [ffmpeg.on('close', ...)] of child [c]. *)
Definition on_close (c : nat) (code : option Z) (s : State) : State :=
  match children s !! c with
  | None => s
  | Some ch =>
      let s := console_log ("FFmpeg process exited with code "
                            +:+ JsString.ofCode code) s in
      fst (stopStream (cp_wsPort ch) s)
  end.

(** [ffmpeg.on('error', ...)] of child [c]. *)
Definition on_error (c : nat) (err : string) (s : State) : State :=
  match children s !! c with
  | None => s
  | Some ch =>
      let s := console_error ("FFmpeg error: " +:+ err) s in
      fst (stopStream (cp_wsPort ch) s)
  end.

(** A viewer connects to server [w]: [ws] adds the new socket, OPEN, to
    [wss.clients] and emits ['connection']; the handler of [startStream],
    when registered, logs the connection.  A closed server accepts no
    connection. *)
Definition on_ws_connection (w : nat) (s : State) : State :=
  match servers s !! w with
  | None => s
  | Some srv =>
      if wss_closed srv then s
      else
        let client := length (sockets s) in
        let s := with_sockets
                   (sockets s ++ [{| ws_server := w; readyState := 1;
                                     sent := [] |}]) s in
        let s := with_servers
                   (<[w := {| wss_port := wss_port srv;
                              wss_closed := wss_closed srv;
                              wss_on_connection := wss_on_connection srv;
                              wss_clients := wss_clients srv ++ [client] |}]>
                      (servers s)) s in
        if wss_on_connection srv then
          console_log ("Client connected to stream on port "
                       +:+ JsString.ofNumber (wss_port srv)) s
        else s
  end.

(** The closing handshake of socket [x] starts: it stays in [wss.clients]
    but is no longer OPEN. *)
Definition on_ws_closing (x : nat) (s : State) : State :=
  match sockets s !! x with
  | None => s
  | Some ws =>
      if readyState ws =? 1 then
        with_sockets (<[x := {| ws_server := ws_server ws; readyState := 2;
                                sent := sent ws |}]> (sockets s)) s
      else s
  end.

(** Socket [x] is closed: [ws] removes it from [wss.clients]; the
    [ws.on('close', ...)] handler logs the disconnection. *)
Definition on_ws_close (x : nat) (s : State) : State :=
  match sockets s !! x with
  | None => s
  | Some ws =>
      if readyState ws =? 3 then s
      else
        let s := with_sockets
                   (<[x := {| ws_server := ws_server ws; readyState := 3;
                              sent := sent ws |}]> (sockets s)) s in
        match servers s !! ws_server ws with
        | None => s
        | Some srv =>
            let s := with_servers
                       (<[ws_server ws :=
                            {| wss_port := wss_port srv;
                               wss_closed := wss_closed srv;
                               wss_on_connection := wss_on_connection srv;
                               wss_clients :=
                                 filter (fun y => negb (Nat.eqb y x))
                                        (wss_clients srv) |}]>
                          (servers s)) s in
            if wss_on_connection srv then
              console_log ("Client disconnected from stream on port "
                           +:+ JsString.ofNumber (wss_port srv)) s
            else s
        end
  end.

(** ** HTTP handlers *)

Definition failure (msg : string) : Result :=
  {| success := false; message := msg; ws_url := None; port := None |}.

(** [POST /api/start-stream] with body [{ rtspUrl, wsPort }]. *)
Definition api_start_stream (rtspUrl : string) (wsPort : Z)
    (listen : Listen) (launch : Spawn) (s : State) : State * Response :=
  if JsMap.has wsPort (streams s) then
    (s, {| status := 400;
           body := JsonResult
                     (failure ("Port " +:+ JsString.ofNumber wsPort
                               +:+ " is already in use")) |})
  else
    match startStream rtspUrl wsPort listen launch s with
    | (s, Returned result) => (s, {| status := 200; body := JsonResult result |})
    | (s, Thrown msg) => (s, {| status := 400; body := JsonResult (failure msg) |})
    end.

(** [POST /api/stop-stream] with body [{ wsPort }]. *)
Definition api_stop_stream (wsPort : Z) (s : State) : State * Response :=
  let '(s, result) := stopStream wsPort s in
  (s, {| status := 200; body := JsonResult result |}).

(** [GET /api/streams] *)
Definition api_streams (s : State) : Response :=
  {| status := 200;
     body := JsonStreams
               (map (fun '(port, info) =>
                       {| se_port := port; se_rtsp_url := rtspUrl info;
                          se_ws_url := ws_url_of port; se_active := true |})
                    (JsMap.entries (streams s))) |}.

(** ** The event loop *)

Inductive Event :=
| HttpStart (rtspUrl : string) (wsPort : Z) (listen : Listen) (launch : Spawn)
| HttpStop (wsPort : Z)
| HttpStreams
| StdoutData (child : nat) (data : Buffer)
| StderrData (child : nat) (data : Buffer)
| ChildClose (child : nat) (code : option Z)
| ChildError (child : nat) (err : string)
| WsConnection (server : nat)
| WsClosing (socket : nat)
| WsClose (socket : nat).

Definition step (e : Event) (s : State) : State * option Response :=
  match e with
  | HttpStart rtspUrl wsPort listen launch =>
      let '(s, r) := api_start_stream rtspUrl wsPort listen launch s in
      (s, Some r)
  | HttpStop wsPort =>
      let '(s, r) := api_stop_stream wsPort s in (s, Some r)
  | HttpStreams => (s, Some (api_streams s))
  | StdoutData c data => (on_stdout_data c data s, None)
  | StderrData c data => (on_stderr_data c data s, None)
  | ChildClose c code => (on_close c code s, None)
  | ChildError c err => (on_error c err s, None)
  | WsConnection w => (on_ws_connection w s, None)
  | WsClosing x => (on_ws_closing x s, None)
  | WsClose x => (on_ws_close x s, None)
  end.

Definition next (s : State) (e : Event) : State := fst (step e s).

(** The state after the events [es], handled in order from [s]. *)
Definition run (es : list Event) (s : State) : State := fold_left next es s.

(** The responses written while handling [es] from [s]. *)
Fixpoint responses (es : list Event) (s : State) : list Response :=
  match es with
  | [] => []
  | e :: es' =>
      match snd (step e s) with
      | Some r => r :: responses es' (next s e)
      | None => responses es' (next s e)
      end
  end.

Definition reachable (s : State) : Prop := exists es, s = run es init.

(** ** Notions used by the properties *)

(** [needle] occurs in [s]. *)
Definition occurs (needle s : string) : Prop :=
  exists pre post, s = pre +:+ needle +:+ post.

(** The console line that [on_stderr_data] writes for the message [msg] of a
    child started on [wsPort]. *)
Definition diagnostic (wsPort : Z) (msg : string) : Line :=
  Log ("FFmpeg [" +:+ JsString.ofNumber wsPort +:+ "]: " +:+ JsString.trim msg).

(** The messages that are not progress output. *)
Definition relevant (msgs : list string) : list string :=
  List.filter (fun msg => negb (JsString.includes msg "frame=")) msgs.

(** The chunks that the transcoder feeding relay [w] emits when event [e]
    arrives in state [s], and during the events [es] handled from [s]. *)
Definition publishes (w : nat) (e : Event) (s : State) : list Buffer :=
  match e with
  | StdoutData c data =>
      match children s !! c with
      | Some ch => if Nat.eqb (cp_wss ch) w then [data] else []
      | None => []
      end
  | _ => []
  end.

Fixpoint published (w : nat) (es : list Event) (s : State) : list Buffer :=
  match es with
  | [] => []
  | e :: es' => publishes w e s ++ published w es' (next s e)
  end.

(** No event of [es] closes socket [x] or starts closing it. *)
Definition stays_open (x : nat) (es : list Event) : bool :=
  forallb (fun e => match e with
                    | WsClosing y | WsClose y => negb (Nat.eqb y x)
                    | _ => true
                    end) es.

(** Total length of the chunks that child [c] writes to stdout in [es]. *)
Fixpoint stdout_bytes (c : nat) (es : list Event) : Z :=
  match es with
  | [] => 0
  | StdoutData c' data :: es' =>
      (if Nat.eqb c' c then Z.of_nat (String.length data) else 0)
      + stdout_bytes c es'
  | _ :: es' => stdout_bytes c es'
  end.

(** No event of [es] stops the stream of [K], and no child exits or fails. *)
Definition no_teardown (K : Z) (es : list Event) : bool :=
  forallb (fun e => match e with
                    | HttpStop K' => negb (Z.eqb K' K)
                    | ChildClose _ _ | ChildError _ _ => false
                    | _ => true
                    end) es.

(** The ports listed by [GET /api/streams]. *)
Definition listed (s : State) : list Z :=
  match body (api_streams s) with
  | JsonStreams l => map se_port l
  | JsonResult _ => []
  end.

(** The message of the exception that escapes [startStream], if one does. *)
Definition thrown (listen : Listen) (launch : Spawn) : option string :=
  match listen, launch with
  | ListenThrows msg, _ => Some msg
  | Listens, SpawnThrows msg => Some msg
  | Listens, _ => None
  end.

(** The three responses of the control plane that the properties name. *)
Definition already_active (K : Z) : Response :=
  {| status := 400;
     body := JsonResult (failure ("Port " +:+ JsString.ofNumber K
                                  +:+ " is already in use")) |}.

Definition not_found (K : Z) : Result :=
  failure ("No stream found on port " +:+ JsString.ofNumber K).

Definition stopped (K : Z) : Result :=
  {| success := true;
     message := "Stream on port " +:+ JsString.ofNumber K +:+ " stopped";
     ws_url := None; port := Some K |}.

Definition started (K : Z) : Response :=
  {| status := 200;
     body := JsonResult
               {| success := true;
                  message := "Stream started on port " +:+ JsString.ofNumber K;
                  ws_url := Some (ws_url_of K); port := Some K |} |}.

(** Some transcoder writes into relay [w]. *)
Definition fed (s : State) (w : nat) : Prop :=
  exists c ch, children s !! c = Some ch /\ cp_wss ch = w.

(** The session of [K] with entry [info] is torn down in [s]: the child is
    killed, the server closed, the key gone from [streams] and from the list
    of [GET /api/streams]. *)
Definition torn_down (s : State) (K : Z) (info : StreamInfo) : Prop :=
  JsMap.get K (streams s) = None /\
  ~ In K (listed s) /\
  (exists ch, children s !! ffmpeg info = Some ch /\ cp_killed ch = true) /\
  (exists srv, servers s !! wss info = Some srv /\ wss_closed srv = true).

Definition with_console (l : list Line) (s : State) : State :=
  {| streams := streams s; servers := servers s; children := children s;
     sockets := sockets s; console := l |}.

(** The relay [w] is shut down as the specification has it (4.3): the
    listening socket is closed and so is every viewer connection. *)
Definition relay_shut_down (s : State) (w : nat) : Prop :=
  (exists srv, servers s !! w = Some srv /\ wss_closed srv = true) /\
  forall x ws, sockets s !! x = Some ws -> ws_server ws = w ->
               readyState ws <> 1.

(** What [wss.close()] does to the relay [w] between [s] and [s']: the
    server is closed and accepts no viewer any more, while the sockets and
    the client set of the relay are what they were. *)
Definition listener_closed (s s' : State) (w : nat) : Prop :=
  (exists srv, servers s' !! w = Some srv /\ wss_closed srv = true) /\
  on_ws_connection w s' = s' /\
  sockets s' = sockets s /\
  clients_of w s' = clients_of w s.

(** A relay is live until [close()] is called on it, a transcoder handle
    until [kill] is called on it. *)
Definition live_relay (s : State) (w : nat) : Prop :=
  exists srv, servers s !! w = Some srv /\ wss_closed srv = false.

Definition live_handle (s : State) (c : nat) : Prop :=
  exists ch, children s !! c = Some ch /\ cp_killed ch = false.

(** The relay [w] listens on port [K]; the handle [c] was started for [K]. *)
Definition relay_on (s : State) (K : Z) (w : nat) : Prop :=
  exists srv, servers s !! w = Some srv /\ wss_port srv = K.

Definition handle_for (s : State) (K : Z) (c : nat) : Prop :=
  exists ch, children s !! c = Some ch /\ cp_wsPort ch = K.

(** The session registered under [K] holds relay [w] and handle [c]. *)
Definition registered (s : State) (K : Z) (w c : nat) : Prop :=
  exists info, JsMap.get K (streams s) = Some info
               /\ wss info = w /\ ffmpeg info = c.

(** ** Invariants of the reachable states *)

(** Sessions: every entry of [streams] refers to a live relay and a live
    handle made for its key; a handle that is not killed is the registered
    one of its key, a killed one has its relay closed. *)
Record SessInv (s : State) : Prop := {
  inv_keys : NoDup (JsMap.keys (streams s));
  inv_entry : forall K info,
    JsMap.get K (streams s) = Some info ->
    totalBytes info = 0 /\
    exists srv ch,
      servers s !! wss info = Some srv /\ wss_port srv = K /\
      wss_closed srv = false /\
      children s !! ffmpeg info = Some ch /\ cp_wsPort ch = K /\
      cp_wss ch = wss info /\ cp_killed ch = false;
  inv_child : forall c ch,
    children s !! c = Some ch ->
    exists srv,
      servers s !! cp_wss ch = Some srv /\ wss_port srv = cp_wsPort ch /\
      if cp_killed ch then wss_closed srv = true
      else exists info, JsMap.get (cp_wsPort ch) (streams s) = Some info
                        /\ ffmpeg info = c
}.

(** Viewers: [wss.clients] is a set of sockets of that server, and holds
    every socket of the server that is OPEN. *)
Record SockInv (s : State) : Prop := {
  inv_open : forall x ws,
    sockets s !! x = Some ws -> readyState ws = 1 ->
    exists srv, servers s !! ws_server ws = Some srv /\ x ∈ wss_clients srv;
  inv_clients : forall w srv,
    servers s !! w = Some srv ->
    NoDup (wss_clients srv) /\
    forall x, x ∈ wss_clients srv ->
              exists ws, sockets s !! x = Some ws /\ ws_server ws = w
}.

(** What the session invariant reads of a server and of a child. *)
Definition srv_core (srv : WebSocketServer) : Z * bool :=
  (wss_port srv, wss_closed srv).

Definition ch_core (ch : ChildProcess) : Z * nat * bool :=
  (cp_wsPort ch, cp_wss ch, cp_killed ch).

(** [s'] differs from [s] in nothing the session invariant reads. *)
Definition same_sessions (s s' : State) : Prop :=
  streams s' = streams s /\
  (forall w, srv_core <$> servers s' !! w = srv_core <$> servers s !! w) /\
  (forall c, ch_core <$> children s' !! c = ch_core <$> children s !! c).

(** What the viewer invariant reads of a socket, and when [s'] differs from
    [s] in nothing that invariant reads. *)
Definition sock_core (ws : WebSocket) : nat * Z :=
  (ws_server ws, readyState ws).

Definition same_viewers (s s' : State) : Prop :=
  (forall x, sock_core <$> sockets s' !! x = sock_core <$> sockets s !! x) /\
  (forall w, wss_clients <$> servers s' !! w = wss_clients <$> servers s !! w).

(** ** The SIGINT handler *)

(** [process.on('SIGINT', ...)]: [console.log('\nShutting down...')], then
    [streams.forEach((_, port) => stopStream(port))], then [process.exit()];
    [on_sigint s] is the state in which [process.exit()] is called.
    [forEach] visits the entries in insertion order; each call deletes only
    the entry it is visiting.  The streams are those of [startStream]: the
    child that [/api/check-ffmpeg] spawns to probe the transcoder is no part
    of the model, and the handler does nothing about it. *)
Definition on_sigint (s : State) : State :=
  let s := console_log (String "010" "Shutting down...") s in
  fold_left (fun s port => fst (stopStream port s))
            (JsMap.keys (streams s)) s.

(** ** The browser client, [App.jsx]

    The component keeps the camera list and talks to the server with [fetch];
    the model follows the browser path ([isTauri] false) and lets one handler
    run on the current state of the component and of the server. *)

Module JsArray.

(** [Array.prototype.includes] on numbers. *)
Definition includes (l : list Z) (x : Z) : bool := existsb (Z.eqb x) l.

(** [Array.prototype.slice(start, end)] for indices that are not negative. *)
Definition slice {A} (start stop : nat) (l : list A) : list A :=
  take (stop - start) (drop start l).

End JsArray.

Module App.

Definition CAMERAS_PER_PAGE : nat := 4.

Definition BASE_WS_PORT : Z := 9900.

Record Camera := {
  cam_id : Z;
  cam_name : string;
  cam_rtspUrl : string;
  cam_wsPort : Z;
  cam_active : bool;
  cam_wsUrl : option string
}.

(** The component's state: [cameras], [currentTab], [status], the form
    [newCamera] and [showAddForm]. *)
Record AppState := {
  cameras : list Camera;
  currentTab : nat;
  app_status : string;
  new_name : string;
  new_rtspUrl : string;
  showAddForm : bool
}.

(** The loop [while (usedPorts.includes(port)) port++], run for at most
    [fuel] increments. *)
Fixpoint nextFree (fuel : nat) (usedPorts : list Z) (port : Z) : Z :=
  match fuel with
  | O => port
  | S fuel' =>
      if JsArray.includes usedPorts port
      then nextFree fuel' usedPorts (port + 1)
      else port
  end.

(** [getNextPort]: the loop leaves after at most one increment per camera. *)
Definition getNextPort (cams : list Camera) : Z :=
  if Nat.eqb (length cams) 0 then BASE_WS_PORT
  else
    let usedPorts := map cam_wsPort cams in
    nextFree (length usedPorts) usedPorts BASE_WS_PORT.

(** [Math.max(1, Math.ceil(cameras.length / CAMERAS_PER_PAGE))] *)
Definition totalTabs (cams : list Camera) : nat :=
  Nat.max 1 ((length cams + (CAMERAS_PER_PAGE - 1)) / CAMERAS_PER_PAGE).

Definition getCurrentPageCameras (tab : nat) (cams : list Camera)
  : list Camera :=
  let start := (tab * CAMERAS_PER_PAGE)%nat in
  let stop := (start + CAMERAS_PER_PAGE)%nat in
  JsArray.slice start stop cams.

Definition set_status (text : string) (app : AppState) : AppState :=
  {| cameras := cameras app; currentTab := currentTab app;
     app_status := text; new_name := new_name app;
     new_rtspUrl := new_rtspUrl app; showAddForm := showAddForm app |}.

Definition set_cameras (cams : list Camera) (app : AppState) : AppState :=
  {| cameras := cams; currentTab := currentTab app;
     app_status := app_status app; new_name := new_name app;
     new_rtspUrl := new_rtspUrl app; showAddForm := showAddForm app |}.

(** [addCamera]; [now] is what [Date.now()] returns. *)
Definition addCamera (now : Z) (app : AppState) : AppState :=
  if String.eqb (new_name app) "" || String.eqb (new_rtspUrl app) "" then
    set_status "Please fill in camera name and RTSP URL" app
  else
    let wsPort := getNextPort (cameras app) in
    let camera := {| cam_id := now; cam_name := new_name app;
                     cam_rtspUrl := new_rtspUrl app; cam_wsPort := wsPort;
                     cam_active := false; cam_wsUrl := None |} in
    {| cameras := cameras app ++ [camera]; currentTab := currentTab app;
       app_status := "Added camera: " +:+ cam_name camera;
       new_name := ""; new_rtspUrl := ""; showAddForm := false |}.

(** What [fetch] does: the request reaches the server, or the promise is
    rejected with an error. *)
Inductive Fetch :=
| Delivered
| Rejected (err : string).

(** [{ ...c, active: true, wsUrl }] for the cameras with the given id. *)
Definition mark (camId : Z) (active : bool) (wsUrl : option string)
    (cams : list Camera) : list Camera :=
  map (fun c => if Z.eqb (cam_id c) camId
                then {| cam_id := cam_id c; cam_name := cam_name c;
                        cam_rtspUrl := cam_rtspUrl c;
                        cam_wsPort := cam_wsPort c;
                        cam_active := active; cam_wsUrl := wsUrl |}
                else c) cams.

(** [startStream(camera)] of the component, with the server it talks to:
    the POST to [/api/start-stream] with [{ rtspUrl, wsPort }] runs the
    server's handler of that route, and [res.json()] is the result it
    wrote. *)
Definition startStream (camera : Camera) (net : Fetch)
    (listen : Listen) (launch : Spawn) (srv : State) (app : AppState)
  : State * AppState :=
  match net with
  | Rejected err => (srv, set_status ("Error: " +:+ err) app)
  | Delivered =>
      let '(srv, res) :=
        api_start_stream (cam_rtspUrl camera) (cam_wsPort camera)
                         listen launch srv in
      match body res with
      | JsonResult response =>
          if success response then
            (srv, set_status ("Started: " +:+ cam_name camera)
                    (set_cameras (mark (cam_id camera) true (ws_url response)
                                       (cameras app)) app))
          else
            (srv, set_status
                    ("Error: " +:+ (if String.eqb (message response) ""
                                    then "Failed to start stream"
                                    else message response)) app)
      | JsonStreams _ =>
          (srv, set_status "Error: Failed to start stream" app)
      end
  end.

(** [stopStream(camera)] of the component: the POST to [/api/stop-stream]
    with [{ wsPort }] runs the server's handler of that route; the response
    is not read. *)
Definition stopStream (camera : Camera) (net : Fetch)
    (srv : State) (app : AppState) : State * AppState :=
  match net with
  | Rejected err => (srv, set_status ("Error stopping: " +:+ err) app)
  | Delivered =>
      let '(srv, _) := api_stop_stream (cam_wsPort camera) srv in
      (srv, set_status ("Stopped: " +:+ cam_name camera)
              (set_cameras (mark (cam_id camera) false None (cameras app))
                           app))
  end.

(** [removeCamera(camera)] *)
Definition removeCamera (camera : Camera) (net : Fetch)
    (srv : State) (app : AppState) : State * AppState :=
  let '(srv, app) :=
    if cam_active camera then stopStream camera net srv app else (srv, app) in
  (srv, set_status ("Removed: " +:+ cam_name camera)
          (set_cameras
             (List.filter (fun c => negb (Z.eqb (cam_id c) (cam_id camera)))
                          (cameras app)) app)).

(** [startAllOnPage]: the cameras of the current page, as rendered, are
    started one after the other when not shown active; [env] gives, for each
    request, what [fetch] and the server's libraries do. *)
Definition startAllOnPage (env : Camera -> Fetch * Listen * Spawn)
    (srv : State) (app : AppState) : State * AppState :=
  fold_left
    (fun '(srv, app) camera =>
       if negb (cam_active camera) then
         let '(net, listen, launch) := env camera in
         startStream camera net listen launch srv app
       else (srv, app))
    (getCurrentPageCameras (currentTab app) (cameras app)) (srv, app).

(** [stopAllOnPage] *)
Definition stopAllOnPage (env : Camera -> Fetch)
    (srv : State) (app : AppState) : State * AppState :=
  fold_left
    (fun '(srv, app) camera =>
       if cam_active camera then stopStream camera (env camera) srv app
       else (srv, app))
    (getCurrentPageCameras (currentTab app) (cameras app)) (srv, app).

End App.

(** ** Locating the transcoder: [searchFFmpegInDir] and [findFFmpeg]

    The file system and the process environment are parameters:
    [readdirSync dir] lists a directory or throws, [join] is [path.join] on
    two segments (a call with more segments joins them from the left),
    [existsSync] tests a path. *)

Module Discovery.

Inductive Kind :=
| IsFile
| IsDirectory
| IsOther.

(** A [Dirent] of [readdirSync(dir, { withFileTypes: true })]. *)
Record Dirent := {
  d_name : string;
  d_kind : Kind
}.

Definition isFile (item : Dirent) : bool :=
  match d_kind item with IsFile => true | _ => false end.

Definition isDirectory (item : Dirent) : bool :=
  match d_kind item with IsDirectory => true | _ => false end.

(** [String.prototype.toLowerCase] on ASCII text. *)
Definition lowerChar (c : ascii) : ascii :=
  let n := nat_of_ascii c in
  if ((65 <=? n) && (n <=? 90))%nat then ascii_of_nat (n + 32) else c.

Fixpoint toLowerCase (s : string) : string :=
  match s with
  | EmptyString => EmptyString
  | String c rest => String (lowerChar c) (toLowerCase rest)
  end.

Definition startsWith (s p : string) : bool := String.prefix p s.

(** The first value found by [f] along the list: a [for] loop that returns
    from inside. *)
Fixpoint firstFound {A B} (f : A -> option B) (l : list A) : option B :=
  match l with
  | [] => None
  | x :: l' => match f x with
               | Some y => Some y
               | None => firstFound f l'
               end
  end.

Section FileSystem.
Variable readdirSync : string -> Completion (list Dirent).
Variable join : string -> string -> string.
Variable existsSync : string -> bool.

(** The ffmpeg executable among the files of a listing. *)
Definition isFFmpegExe (item : Dirent) : bool :=
  isFile item && String.eqb (toLowerCase (d_name item)) "ffmpeg.exe".

(** The sub-directories that the search enters. *)
Definition isSearched (item : Dirent) : bool :=
  isDirectory item && negb (startsWith (d_name item) ".").

(** [searchFFmpegInDir(dir, depth)] with [levels = 4 - depth] levels of
    directories left to read: at [depth > 3] there is none. *)
Fixpoint search (levels : nat) (dir : string) : option string :=
  match levels with
  | O => None
  | S levels' =>
      match readdirSync dir with
      | Thrown _ => None
      | Returned items =>
          match List.find isFFmpegExe items with
          | Some item => Some (join dir (d_name item))
          | None =>
              firstFound
                (fun item =>
                   if isSearched item
                   then search levels' (join dir (d_name item))
                   else None)
                items
          end
      end
  end.

Definition searchFFmpegInDir (dir : string) (depth : nat) : option string :=
  search (4 - depth) dir.

(** [join(base, seg1, seg2, ...)] *)
Definition joins (base : string) (segments : list string) : string :=
  fold_left join segments base.

(** The process environment of [findFFmpeg]: [process.env.FFMPEG_PATH], the
    exit status of [ffmpeg -version] run through the shell ([null] when it
    could not be run), and [homedir()]. *)
Record Env := {
  env_FFMPEG_PATH : option string;
  probe_status : option Z;
  homedir : string
}.

Definition wingetBase (env : Env) : string :=
  joins (homedir env) ["AppData"; "Local"; "Microsoft"; "WinGet"; "Packages"].

Definition windowsPaths (env : Env) : list string :=
  [joins (homedir env)
         ["AppData"; "Local"; "Microsoft"; "WinGet"; "Links"; "ffmpeg.exe"];
   "C:\ffmpeg\bin\ffmpeg.exe";
   "C:\Program Files\ffmpeg\bin\ffmpeg.exe";
   joins (homedir env)
         ["scoop"; "apps"; "ffmpeg"; "current"; "bin"; "ffmpeg.exe"]]%string.

(** The search of the WinGet packages folder: the first package directory
    whose name contains [ffmpeg] and in which the search finds the
    executable. *)
Definition searchWinget (env : Env) : option string :=
  if existsSync (wingetBase env) then
    match readdirSync (wingetBase env) with
    | Thrown _ => None
    | Returned items =>
        firstFound
          (fun dir =>
             if JsString.includes (toLowerCase dir) "ffmpeg"
             then searchFFmpegInDir (join (wingetBase env) dir) 0
             else None)
          (map d_name items)
    end
  else None.

(** [findFFmpeg] below the test of [FFMPEG_PATH]. *)
Definition locate (env : Env) : string :=
  if match probe_status env with Some status => Z.eqb status 0 | None => false end
  then "ffmpeg"
  else
    let paths := match searchWinget env with
                 | Some found => found :: windowsPaths env
                 | None => windowsPaths env
                 end in
    match List.find existsSync paths with
    | Some p => p
    | None => "ffmpeg"
    end.

Definition findFFmpeg (env : Env) : string :=
  match env_FFMPEG_PATH env with
  | Some path => if String.eqb path "" then locate env else path
  | None => locate env
  end.

(** [dir'] lies [n] levels below [dir], through directories that can be
    read and sub-directories whose names do not start with a dot. *)
Inductive reaches : nat -> string -> string -> Prop :=
| reaches_here dir : reaches 0 dir dir
| reaches_down n dir items item dir' :
    readdirSync dir = Returned items ->
    In item items -> isSearched item = true ->
    reaches n (join dir (d_name item)) dir' ->
    reaches (S n) dir dir'.

(** The ffmpeg executable is a file of the directory [dir], under [path]. *)
Definition holds (dir path : string) : Prop :=
  exists items item,
    readdirSync dir = Returned items /\ In item items /\
    d_kind item = IsFile /\ toLowerCase (d_name item) = "ffmpeg.exe"%string /\
    path = join dir (d_name item).

End FileSystem.

(** A small WinGet packages folder, to run the search on. *)
Definition readdir_sample (dir : string) : Completion (list Dirent) :=
  if String.eqb dir "home/AppData/Local/Microsoft/WinGet/Packages" then
    Returned [{| d_name := "Git.Git"; d_kind := IsDirectory |};
              {| d_name := "Gyan.FFmpeg"; d_kind := IsDirectory |}]
  else if String.eqb dir
            "home/AppData/Local/Microsoft/WinGet/Packages/Gyan.FFmpeg" then
    Returned [{| d_name := "README.txt"; d_kind := IsFile |};
              {| d_name := ".cache"; d_kind := IsDirectory |};
              {| d_name := "build"; d_kind := IsDirectory |}]
  else if String.eqb dir
            "home/AppData/Local/Microsoft/WinGet/Packages/Gyan.FFmpeg/build"
  then
    Returned [{| d_name := "bin"; d_kind := IsDirectory |}]
  else if String.eqb dir
            "home/AppData/Local/Microsoft/WinGet/Packages/Gyan.FFmpeg/build/bin"
  then
    Returned [{| d_name := "FFmpeg.EXE"; d_kind := IsFile |}]
  else Thrown "ENOENT".

Definition join_sample (a b : string) : string := a +:+ "/" +:+ b.

End Discovery.

(** * Properties *)

(** ** The Map *)

Module JsMapFacts.
Section WithValue.
Context {V : Type}.
Implicit Types (m : JsMap.t V) (k : Z) (v : V).

Lemma has_get k m : JsMap.has k m = true <-> is_Some (JsMap.get k m).
Proof.
  unfold JsMap.has. destruct (JsMap.get k m); split; intros H;
    try done; by eauto || by destruct H.
Qed.

Lemma has_false k m : JsMap.has k m = false <-> JsMap.get k m = None.
Proof. unfold JsMap.has. by destruct (JsMap.get k m). Qed.

Lemma get_set_eq k v m : JsMap.get k (JsMap.set k v m) = Some v.
Proof.
  induction m as [|[k' v'] m IH]; simpl.
  - by rewrite Z.eqb_refl.
  - destruct (Z.eqb_spec k' k) as [->|Hne]; simpl.
    + by rewrite Z.eqb_refl.
    + by destruct (Z.eqb_spec k' k).
Qed.

Lemma get_set_ne k k' v m :
  k <> k' -> JsMap.get k' (JsMap.set k v m) = JsMap.get k' m.
Proof.
  intros Hne. induction m as [|[k0 v0] m IH]; simpl.
  - by destruct (Z.eqb_spec k k').
  - destruct (Z.eqb_spec k0 k) as [->|Hk]; simpl.
    + by destruct (Z.eqb_spec k k').
    + by rewrite IH.
Qed.

Lemma get_delete_eq k m : JsMap.get k (JsMap.delete k m) = None.
Proof.
  induction m as [|[k' v'] m IH]; simpl; [done|].
  destruct (Z.eqb_spec k' k) as [->|Hne]; simpl; [done|].
  by destruct (Z.eqb_spec k' k).
Qed.

Lemma get_delete_ne k k' m :
  k <> k' -> JsMap.get k' (JsMap.delete k m) = JsMap.get k' m.
Proof.
  intros Hne. induction m as [|[k0 v0] m IH]; simpl; [done|].
  destruct (Z.eqb_spec k0 k) as [->|Hk]; simpl.
  - by destruct (Z.eqb_spec k k').
  - by rewrite IH.
Qed.

Lemma get_None_keys k m : JsMap.get k m = None <-> k ∉ JsMap.keys m.
Proof.
  induction m as [|[k' v'] m IH]; simpl.
  - split; [intros _; apply not_elem_of_nil | done].
  - rewrite not_elem_of_cons.
    destruct (Z.eqb_spec k' k) as [->|Hne]; [split; [done | tauto]|].
    rewrite IH. split; [by intros ?; split | tauto].
Qed.

Lemma delete_absent k m : JsMap.get k m = None -> JsMap.delete k m = m.
Proof.
  induction m as [|[k' v'] m IH]; simpl; [done|].
  destruct (Z.eqb_spec k' k); [done|]. intros H. by rewrite IH.
Qed.

Lemma keys_set_absent k v m :
  JsMap.get k m = None -> JsMap.keys (JsMap.set k v m) = JsMap.keys m ++ [k].
Proof.
  unfold JsMap.keys. induction m as [|[k' v'] m IH]; simpl; [done|].
  destruct (Z.eqb_spec k' k); [done|]. intros H. simpl. by rewrite IH.
Qed.

Lemma keys_delete_sub k k' m :
  k' ∈ JsMap.keys (JsMap.delete k m) -> k' ∈ JsMap.keys m.
Proof.
  induction m as [|[k0 v0] m IH]; simpl; [done|].
  destruct (Z.eqb_spec k0 k); simpl; rewrite ?elem_of_cons; tauto.
Qed.

Lemma NoDup_keys_set k v m :
  JsMap.get k m = None -> NoDup (JsMap.keys m) ->
  NoDup (JsMap.keys (JsMap.set k v m)).
Proof.
  intros Hk Hnd. rewrite keys_set_absent by done.
  apply NoDup_app. split; [done|]. split; [|apply NoDup_singleton].
  intros x Hx ->%list_elem_of_singleton. by apply get_None_keys in Hk.
Qed.

Lemma NoDup_keys_delete k m :
  NoDup (JsMap.keys m) -> NoDup (JsMap.keys (JsMap.delete k m)).
Proof.
  induction m as [|[k0 v0] m IH]; simpl; [done|].
  rewrite NoDup_cons. intros [Hni Hnd].
  destruct (Z.eqb_spec k0 k); simpl; [by apply IH|].
  apply NoDup_cons. split; [|by apply IH].
  intros Hin. apply Hni. by eapply keys_delete_sub.
Qed.

Lemma count_absent k m : JsMap.get k m = None -> JsMap.count k m = 0%nat.
Proof.
  unfold JsMap.count. induction m as [|[k' v'] m IH]; simpl; [done|].
  destruct (Z.eqb_spec k' k); [done | apply IH].
Qed.

(** With distinct keys, a key that is present is stored exactly once. *)
Lemma count_present k v m :
  NoDup (JsMap.keys m) -> JsMap.get k m = Some v -> JsMap.count k m = 1%nat.
Proof.
  unfold JsMap.count. induction m as [|[k' v'] m IH]; simpl; [done|].
  intros [Hni Hnd]%NoDup_cons.
  destruct (Z.eqb_spec k' k) as [->|Hne]; [|by apply IH].
  intros _. simpl. f_equal. apply count_absent. by apply get_None_keys.
Qed.

End WithValue.
End JsMapFacts.

(** ** The session invariant *)

Section Sessions.
Import JsMapFacts.

Lemma same_sessions_refl s : same_sessions s s.
Proof. by repeat split. Qed.

Lemma same_sessions_trans s1 s2 s3 :
  same_sessions s1 s2 -> same_sessions s2 s3 -> same_sessions s1 s3.
Proof.
  intros (Hm & Hs & Hc) (Hm' & Hs' & Hc'). repeat split.
  - by rewrite Hm'.
  - intros w. by rewrite Hs'.
  - intros c. by rewrite Hc'.
Qed.

Lemma core_lookup {A B} (f : A -> B) (l l' : list A) i x :
  f <$> l' !! i = f <$> l !! i -> l !! i = Some x ->
  exists x', l' !! i = Some x' /\ f x' = f x.
Proof.
  intros H Hx. rewrite Hx in H. simpl in H.
  apply fmap_Some in H as (x' & ? & ?). eauto.
Qed.

Lemma SessInv_same s s' : same_sessions s s' -> SessInv s -> SessInv s'.
Proof.
  intros (Hm & Hs & Hc) [Hk He Hch]. split.
  - by rewrite Hm.
  - intros K info. rewrite Hm. intros Hget.
    destruct (He K info Hget)
      as (Hz & srv & ch & Hsrv & Hp & Hcl & Hchl & Hcp & Hw & Hkl).
    split; [done|].
    destruct (core_lookup _ _ _ _ _ (Hs (wss info)) Hsrv) as (srv' & ? & E1).
    destruct (core_lookup _ _ _ _ _ (Hc (ffmpeg info)) Hchl) as (ch' & ? & E2).
    unfold srv_core in E1. unfold ch_core in E2.
    injection E1 as Ep Ecl. injection E2 as Ea Eb Ec.
    exists srv', ch'. repeat split; congruence.
  - intros c ch' Hl.
    assert (Hc' := eq_sym (Hc c)).
    destruct (core_lookup _ _ _ _ _ Hc' Hl) as (ch & Hl0 & E2).
    destruct (Hch c ch Hl0) as (srv & Hsrv & Hp & Hrest).
    destruct (core_lookup _ _ _ _ _ (Hs (cp_wss ch)) Hsrv) as (srv' & ? & E1).
    unfold srv_core in E1. unfold ch_core in E2.
    injection E1 as Ep Ecl. injection E2 as Ea Eb Ec.
    exists srv'. rewrite <- Eb, <- Ea, <- Ec, Hm, Ep, Ecl. done.
Qed.

Lemma core_alter {A B} (g : A -> B) (f : A -> A) (l : list A) i j :
  (forall x, g (f x) = g x) -> g <$> alter f i l !! j = g <$> l !! j.
Proof.
  intros Hg. rewrite list_lookup_alter. destruct (decide (i = j)) as [->|]; [|done].
  destruct (l !! j); simpl; [by rewrite Hg | done].
Qed.

Lemma core_insert {A B} (g : A -> B) (l : list A) i j x y :
  l !! i = Some x -> g y = g x -> g <$> <[i:=y]> l !! j = g <$> l !! j.
Proof.
  intros Hx Hg. destruct (decide (i = j)) as [->|Hne].
  - rewrite list_lookup_insert_eq by (by eapply lookup_lt_Some).
    by rewrite Hx; simpl; rewrite Hg.
  - by rewrite list_lookup_insert_ne.
Qed.

Lemma same_console_log text s : same_sessions s (console_log text s).
Proof. by repeat split. Qed.

Lemma same_console_error text s : same_sessions s (console_error text s).
Proof. by repeat split. Qed.

Lemma same_with_sockets l s : same_sessions s (with_sockets l s).
Proof. by repeat split. Qed.

Lemma same_on_connection w s : same_sessions s (on_connection w s).
Proof.
  split; [done|]. split; [|done]. intros w'. simpl. by apply core_alter.
Qed.

Lemma SessInv_init : SessInv init.
Proof. split; simpl; [apply NoDup_nil_2 | done | done]. Qed.

(** Registering a fresh relay and a fresh handle under an absent key. *)
Lemma SessInv_register s K url lines :
  SessInv s -> JsMap.get K (streams s) = None ->
  SessInv
    {| streams :=
         JsMap.set K {| rtspUrl := url; wss := length (servers s);
                        ffmpeg := length (children s); totalBytes := 0 |}
                   (streams s);
       servers := servers s ++ [{| wss_port := K; wss_closed := false;
                                   wss_on_connection := false;
                                   wss_clients := [] |}];
       children := children s ++ [{| cp_rtspUrl := url; cp_wsPort := K;
                                     cp_wss := length (servers s);
                                     cp_totalBytes := 0;
                                     cp_killed := false |}];
       sockets := sockets s; console := lines |}.
Proof.
  intros [Hk He Hch] Habs. split; simpl.
  - by apply NoDup_keys_set.
  - intros K' info'. destruct (decide (K = K')) as [<-|Hne].
    + rewrite get_set_eq. intros [= <-]. simpl. split; [done|].
      eexists _, _. rewrite !list_lookup_middle by done. by repeat split.
    + rewrite get_set_ne by done. intros Hget.
      destruct (He K' info' Hget)
        as (Hz & srv & ch & Hsrv & Hp & Hcl & Hchl & Hcp & Hw & Hkl).
      split; [done|]. exists srv, ch.
      repeat split; try done; by apply lookup_app_l_Some.
  - intros c ch [[Hlt Hl]|[-> <-]]%lookup_snoc_Some.
    + destruct (Hch c ch Hl) as (srv & Hsrv & Hp & Hrest).
      exists srv. split; [by apply lookup_app_l_Some|]. split; [done|].
      destruct (cp_killed ch); [done|].
      destruct Hrest as (info & Hget & Hf). exists info. split; [|done].
      rewrite get_set_ne; [done|]. intros ->. congruence.
    + simpl. eexists. rewrite list_lookup_middle by done.
      repeat split. rewrite get_set_eq. by eexists.
Qed.

Lemma SessInv_startStream url K listen launch s :
  SessInv s -> JsMap.get K (streams s) = None ->
  SessInv (fst (startStream url K listen launch s)).
Proof.
  intros Hinv Habs. unfold startStream.
  destruct listen as [|msg]; simpl;
    [|by eapply SessInv_same; [apply same_console_log|]].
  assert (Hleak : forall text,
    SessInv (fst (new_WebSocketServer K (console_log text s)))).
  { intros text. destruct Hinv as [Hk He Hch]. split; simpl; [done|..].
    - intros K' info' Hget.
      destruct (He K' info' Hget)
        as (Hz & srv & ch & Hsrv & Hp & Hcl & Hchl & Hcp & Hw & Hkl).
      split; [done|]. exists srv, ch.
      repeat split; try done; by apply lookup_app_l_Some.
    - intros c ch Hl. destruct (Hch c ch Hl) as (srv & Hsrv & Hrest).
      exists srv. split; [by apply lookup_app_l_Some | done]. }
  destruct launch as [|err|msg]; simpl; try apply Hleak;
    (eapply SessInv_same; [apply same_on_connection|]);
    by apply (SessInv_register s K url).
Qed.

Lemma SessInv_stopStream K s : SessInv s -> SessInv (fst (stopStream K s)).
Proof.
  intros Hinv. unfold stopStream.
  destruct (JsMap.get K (streams s)) as [info|] eqn:Hget; [|done].
  destruct Hinv as [Hk He Hch]. simpl.
  destruct (He K info Hget)
    as (Hz & srv & ch & Hsrv & Hp & Hcl & Hchl & Hcp & Hw & Hkl).
  split; simpl.
  - by apply NoDup_keys_delete.
  - intros K' info'. destruct (decide (K = K')) as [<-|Hne];
      [by rewrite get_delete_eq|].
    rewrite get_delete_ne by done. intros Hget'.
    destruct (He K' info' Hget')
      as (Hz' & srv' & ch' & Hsrv' & Hp' & Hcl' & Hchl' & Hcp' & Hw' & Hkl').
    split; [done|]. exists srv', ch'.
    rewrite !list_lookup_alter_ne; [done|..]; intros E; rewrite E in *;
      congruence.
  - intros c ch'. rewrite list_lookup_alter.
    destruct (decide (ffmpeg info = c)) as [<-|Hne].
    + rewrite Hchl. intros [= <-]. simpl.
      eexists. rewrite Hw, list_lookup_alter_eq, Hsrv. simpl.
      split; [done|]. simpl. split; [congruence | done].
    + intros Hl. destruct (Hch c ch' Hl) as (srv' & Hsrv' & Hp' & Hrest).
      rewrite list_lookup_alter.
      destruct (decide (wss info = cp_wss ch')) as [E|_].
      * rewrite <- E in Hsrv'. rewrite Hsrv. simpl. eexists. split; [done|].
        assert (srv' = srv) as -> by congruence.
        split; [done|]. simpl. destruct (cp_killed ch'); [done|].
        destruct Hrest as (info' & Hget' & Hf). exists info'. split; [|done].
        rewrite get_delete_ne; [done|]. intros EK. rewrite <- EK in Hget'.
        congruence.
      * exists srv'. repeat split; try done.
        destruct (cp_killed ch'); [done|].
        destruct Hrest as (info' & Hget' & Hf). exists info'. split; [|done].
        rewrite get_delete_ne; [done|]. intros EK. rewrite <- EK in Hget'.
        congruence.
Qed.

Lemma same_on_stdout_data c data s : same_sessions s (on_stdout_data c data s).
Proof.
  unfold on_stdout_data. destruct (children s !! c) as [ch|] eqn:Hc;
    [|apply same_sessions_refl].
  split; [done|]. split; [done|]. intros c'. simpl. by eapply core_insert.
Qed.

Lemma same_on_stderr_data c data s : same_sessions s (on_stderr_data c data s).
Proof.
  unfold on_stderr_data. destruct (children s !! c);
    [|apply same_sessions_refl].
  destruct (negb _); [apply same_console_log | apply same_sessions_refl].
Qed.

Lemma same_on_ws_connection w s : same_sessions s (on_ws_connection w s).
Proof.
  unfold on_ws_connection. destruct (servers s !! w) as [srv|] eqn:Hw;
    [|apply same_sessions_refl].
  destruct (wss_closed srv) eqn:Hcl; [apply same_sessions_refl|].
  destruct (wss_on_connection srv) eqn:Hon;
    [eapply same_sessions_trans; [|apply same_console_log]|];
    (split; [done|]; split; [|done]; intros w'; simpl;
     eapply core_insert; [done|]; unfold srv_core; simpl; congruence).
Qed.

Lemma same_on_ws_closing x s : same_sessions s (on_ws_closing x s).
Proof.
  unfold on_ws_closing. destruct (sockets s !! x); [|apply same_sessions_refl].
  destruct (_ =? _); [apply same_with_sockets | apply same_sessions_refl].
Qed.

Lemma same_on_ws_close x s : same_sessions s (on_ws_close x s).
Proof.
  unfold on_ws_close. destruct (sockets s !! x) as [ws|];
    [|apply same_sessions_refl].
  destruct (_ =? _); [apply same_sessions_refl|]. simpl.
  destruct (servers s !! ws_server ws) as [srv|] eqn:Hw;
    [|apply same_with_sockets].
  destruct (wss_on_connection srv) eqn:Hon;
    [eapply same_sessions_trans; [|apply same_console_log]|];
    (split; [done|]; split; [|done]; intros w'; simpl;
     by eapply core_insert).
Qed.

Lemma SessInv_next s e : SessInv s -> SessInv (next s e).
Proof.
  intros Hinv. unfold next.
  destruct e as [url K listen launch|K| |c data|c data|c code|c err|w|x|x];
    simpl.
  - unfold api_start_stream.
    destruct (JsMap.has K (streams s)) eqn:Hhas; [done|].
    apply has_false in Hhas.
    pose proof (SessInv_startStream url K listen launch s Hinv Hhas) as H.
    by destruct (startStream url K listen launch s) as [s' [r|msg]].
  - unfold api_stop_stream.
    pose proof (SessInv_stopStream K s Hinv) as H.
    by destruct (stopStream K s) as [s' r].
  - done.
  - by eapply SessInv_same; [apply same_on_stdout_data|].
  - by eapply SessInv_same; [apply same_on_stderr_data|].
  - unfold on_close. destruct (children s !! c); [|done].
    apply SessInv_stopStream.
    by eapply SessInv_same; [apply same_console_log|].
  - unfold on_error. destruct (children s !! c); [|done].
    apply SessInv_stopStream.
    by eapply SessInv_same; [apply same_console_error|].
  - by eapply SessInv_same; [apply same_on_ws_connection|].
  - by eapply SessInv_same; [apply same_on_ws_closing|].
  - by eapply SessInv_same; [apply same_on_ws_close|].
Qed.

Lemma SessInv_run es s : SessInv s -> SessInv (run es s).
Proof.
  revert s. induction es as [|e es IH]; intros s Hinv; [done|].
  apply IH. by apply SessInv_next.
Qed.

Lemma SessInv_reachable s : reachable s -> SessInv s.
Proof. intros [es ->]. apply SessInv_run, SessInv_init. Qed.

End Sessions.

(** ** The viewer invariant *)

Section Viewers.

Lemma same_viewers_refl s : same_viewers s s.
Proof. by split. Qed.

Lemma same_viewers_trans s1 s2 s3 :
  same_viewers s1 s2 -> same_viewers s2 s3 -> same_viewers s1 s3.
Proof.
  intros (Hx & Hw) (Hx' & Hw'). split.
  - intros x. by rewrite Hx'.
  - intros w. by rewrite Hw'.
Qed.

Lemma SockInv_same s s' : same_viewers s s' -> SockInv s -> SockInv s'.
Proof.
  intros (Hx & Hw) [Ho Hc]. split.
  - intros x ws' Hl Hopen.
    destruct (core_lookup _ _ _ _ _ (eq_sym (Hx x)) Hl) as (ws & Hl0 & E).
    unfold sock_core in E. injection E as Es Er.
    destruct (Ho x ws Hl0) as (srv & Hsrv & Hin); [congruence|].
    rewrite Es in Hsrv.
    destruct (core_lookup _ _ _ _ _ (Hw (ws_server ws')) Hsrv)
      as (srv' & Hsrv' & E).
    exists srv'. split; [done|]. by rewrite E.
  - intros w srv' Hsrv'.
    destruct (core_lookup _ _ _ _ _ (eq_sym (Hw w)) Hsrv') as (srv & Hsrv & E).
    destruct (Hc w srv Hsrv) as (Hnd & Hall). rewrite <- E.
    split; [done|]. intros x Hin. destruct (Hall x Hin) as (ws & Hl & Hs).
    destruct (core_lookup _ _ _ _ _ (Hx x) Hl) as (ws' & Hl' & E').
    unfold sock_core in E'. injection E' as Es Er.
    exists ws'. split; [done | congruence].
Qed.

Lemma SockInv_init : SockInv init.
Proof. by split. Qed.

Lemma viewers_console_log text s : same_viewers s (console_log text s).
Proof. by split. Qed.

Lemma viewers_console_error text s : same_viewers s (console_error text s).
Proof. by split. Qed.

Lemma viewers_with_streams m s : same_viewers s (with_streams m s).
Proof. by split. Qed.

Lemma viewers_with_children l s : same_viewers s (with_children l s).
Proof. by split. Qed.

Lemma viewers_on_connection w s : same_viewers s (on_connection w s).
Proof. split; [done|]. intros w'. simpl. by apply core_alter. Qed.

Lemma viewers_close w s : same_viewers s (close w s).
Proof. split; [done|]. intros w'. simpl. by apply core_alter. Qed.

Lemma viewers_stopStream K s : same_viewers s (fst (stopStream K s)).
Proof.
  unfold stopStream. destruct (JsMap.get K (streams s)) as [info|];
    [|apply same_viewers_refl].
  simpl. split; [done|]. intros w'. simpl. by apply core_alter.
Qed.

(** A server without clients is added. *)
Lemma SockInv_new_server K s :
  SockInv s -> SockInv (fst (new_WebSocketServer K s)).
Proof.
  intros [Ho Hc]. split; simpl.
  - intros x ws Hl Hopen. destruct (Ho x ws Hl Hopen) as (srv & Hsrv & Hin).
    exists srv. split; [by apply lookup_app_l_Some | done].
  - intros w srv [[_ Hl]|[_ <-]]%lookup_snoc_Some; [by apply Hc|].
    simpl. split; [apply NoDup_nil_2|]. by intros x ?%not_elem_of_nil.
Qed.

Lemma SockInv_startStream url K listen launch s :
  SockInv s -> SockInv (fst (startStream url K listen launch s)).
Proof.
  intros Hinv. unfold startStream.
  destruct listen as [|msg]; simpl;
    [|by eapply SockInv_same; [apply viewers_console_log|]].
  assert (Hnew : forall text,
    SockInv (fst (new_WebSocketServer K (console_log text s)))).
  { intros text. apply SockInv_new_server.
    by eapply SockInv_same; [apply viewers_console_log|]. }
  destruct launch as [|err|msg]; simpl; try apply Hnew;
    (eapply SockInv_same; [apply viewers_on_connection|]);
    (eapply SockInv_same; [apply viewers_with_streams|]);
    (eapply SockInv_same; [apply viewers_with_children|]); apply Hnew.
Qed.

(** [broadcast] changes no socket's server or [readyState]. *)
Lemma broadcast_core data clients socks x :
  sock_core <$> broadcast data clients socks !! x = sock_core <$> socks !! x.
Proof.
  unfold broadcast. revert socks.
  induction clients as [|y cl IH]; intros socks; simpl; [done|].
  rewrite IH. destruct (socks !! y) as [wy|] eqn:Hy; [|done].
  destruct (readyState wy =? 1); [|done]. by eapply core_insert.
Qed.

(** Every OPEN socket of the set receives the chunk once, no other socket
    receives anything. *)
Lemma broadcast_lookup data clients socks x ws :
  NoDup clients -> socks !! x = Some ws ->
  broadcast data clients socks !! x
  = Some (if decide (x ∈ clients /\ readyState ws = 1) then send data ws
          else ws).
Proof.
  unfold broadcast. revert socks ws.
  induction clients as [|y cl IH]; intros socks ws Hnd Hx; cbn [fold_left].
  - rewrite Hx, decide_False; [done|]. by intros [?%elem_of_nil _].
  - apply NoDup_cons in Hnd as [Hy Hnd].
    destruct (decide (y = x)) as [->|Hne].
    + rewrite Hx. destruct (Z.eqb_spec (readyState ws) 1) as [Ho|Ho].
      * assert (Hl : <[x:=send data ws]> socks !! x = Some (send data ws))
          by (apply list_lookup_insert_eq; by eapply lookup_lt_Some).
        rewrite (IH _ _ Hnd Hl). f_equal.
        rewrite decide_False by (by intros [? _]).
        rewrite decide_True; [done|]. split; [by left | done].
      * rewrite (IH _ _ Hnd Hx). f_equal.
        rewrite !decide_False; [done | by intros [_ ?] | by intros [_ ?]].
    + assert (Hstep :
        match socks !! y with
        | Some wy => if readyState wy =? 1 then <[y:=send data wy]> socks
                     else socks
        | None => socks
        end !! x = Some ws).
      { destruct (socks !! y) as [wy|]; [|done].
        destruct (readyState wy =? 1); [|done].
        by rewrite list_lookup_insert_ne. }
      rewrite (IH _ ws Hnd Hstep). f_equal.
      apply decide_ext. rewrite elem_of_cons. split; [tauto|].
      intros [[->|Hin] Ho]; done.
Qed.

Lemma viewers_on_stdout_data c data s : same_viewers s (on_stdout_data c data s).
Proof.
  unfold on_stdout_data. destruct (children s !! c) as [ch|];
    [|apply same_viewers_refl].
  split; [|done]. intros x. simpl. apply broadcast_core.
Qed.

Lemma viewers_on_stderr_data c data s : same_viewers s (on_stderr_data c data s).
Proof.
  unfold on_stderr_data. destruct (children s !! c);
    [|apply same_viewers_refl].
  destruct (negb _); [apply viewers_console_log | apply same_viewers_refl].
Qed.

Lemma SockInv_on_ws_connection w s :
  SockInv s -> SockInv (on_ws_connection w s).
Proof.
  intros Hinv. unfold on_ws_connection.
  destruct (servers s !! w) as [srv|] eqn:Hw; [|done].
  destruct (wss_closed srv) eqn:Hcl; [done|].
  set (s' := with_servers _ _).
  enough (SockInv s') as Hs'.
  { destruct (wss_on_connection srv); [|done].
    by eapply SockInv_same; [apply viewers_console_log|]. }
  subst s'. destruct Hinv as [Ho Hc].
  destruct (Hc w srv Hw) as (Hnd & Hall).
  assert (Hwlt : (w < length (servers s))%nat) by (by eapply lookup_lt_Some).
  split; simpl.
  - intros x ws [[_ Hl]|[-> <-]]%lookup_snoc_Some.
    + intros Hopen. destruct (Ho x ws Hl Hopen) as (srv0 & Hsrv0 & Hin).
      rewrite list_lookup_insert.
      case_decide as Hd; [|by eauto]. destruct Hd as [Hd _].
      rewrite <- Hd in Hsrv0. assert (srv0 = srv) as -> by congruence.
      eexists. split; [done|]. simpl. apply elem_of_app. by left.
    + intros _. simpl. rewrite list_lookup_insert_eq by done.
      eexists. split; [done|]. simpl. apply elem_of_app. right. by left.
  - intros w' srv'. rewrite list_lookup_insert.
    case_decide as Hd.
    + destruct Hd as [<- _]. intros [= <-]. simpl. split.
      * apply NoDup_app. split; [done|]. split; [|apply NoDup_singleton].
        intros x Hin ->%list_elem_of_singleton.
        destruct (Hall _ Hin) as (ws & Hl & _).
        apply lookup_lt_Some in Hl. lia.
      * intros x [Hin| ->%list_elem_of_singleton]%elem_of_app.
        -- destruct (Hall _ Hin) as (ws & Hl & Hs).
           exists ws. split; [by apply lookup_app_l_Some | done].
        -- eexists. split; [apply list_lookup_middle; done | done].
    + intros Hsrv'. destruct (Hc w' srv' Hsrv') as (Hnd' & Hall').
      split; [done|]. intros x Hin. destruct (Hall' _ Hin) as (ws & Hl & Hs).
      exists ws. split; [by apply lookup_app_l_Some | done].
Qed.

Lemma SockInv_on_ws_closing x s : SockInv s -> SockInv (on_ws_closing x s).
Proof.
  intros Hinv. unfold on_ws_closing.
  destruct (sockets s !! x) as [wx|] eqn:Hx; [|done].
  destruct (readyState wx =? 1); [|done].
  destruct Hinv as [Ho Hc]. split; simpl.
  - intros y ws [(_ & <- & _)|[Hne Hl]]%list_lookup_insert_Some; [done|].
    by apply Ho.
  - intros w srv Hsrv. destruct (Hc w srv Hsrv) as (Hnd & Hall).
    split; [done|]. intros y Hin. destruct (Hall _ Hin) as (ws & Hl & Hs).
    destruct (decide (x = y)) as [<-|Hne].
    + rewrite list_lookup_insert_eq by (by eapply lookup_lt_Some).
      eexists. split; [done|]. simpl. congruence.
    + exists ws. by rewrite list_lookup_insert_ne.
Qed.

Lemma SockInv_on_ws_close x s : SockInv s -> SockInv (on_ws_close x s).
Proof.
  intros Hinv. unfold on_ws_close.
  destruct (sockets s !! x) as [wx|] eqn:Hx; [|done].
  destruct (readyState wx =? 3); [done|].
  assert (Hxlt : (x < length (sockets s))%nat) by (by eapply lookup_lt_Some).
  destruct Hinv as [Ho Hc]. cbn zeta. cbn [servers with_sockets].
  destruct (servers s !! ws_server wx) as [srv|] eqn:Hw.
  - set (s' := with_servers _ _).
    enough (SockInv s') as Hs'.
    { destruct (wss_on_connection srv); [|done].
      by eapply SockInv_same; [apply viewers_console_log|]. }
    subst s'. split; simpl.
    + intros y ws [(_ & <- & _)|[Hne Hl]]%list_lookup_insert_Some; [done|].
      intros Hopen. destruct (Ho y ws Hl Hopen) as (srv0 & Hsrv0 & Hin).
      rewrite list_lookup_insert. case_decide as Hd; [|by eauto].
      destruct Hd as [Hd _]. rewrite <- Hd in Hsrv0.
      assert (srv0 = srv) as -> by congruence.
      eexists. split; [done|]. simpl. apply list_elem_of_filter.
      split; [|done]. apply negb_prop_intro. intros E.
      apply Is_true_eq_true, Nat.eqb_eq in E. congruence.
    + intros w srv'. rewrite list_lookup_insert. intros Hsrv'.
      assert (exists srv0, servers s !! w = Some srv0 /\
                wss_clients srv' ⊆ wss_clients srv0 /\
                NoDup (wss_clients srv')) as (srv0 & Hsrv0 & Hsub & Hnd').
      { case_decide as Hd.
        - destruct Hd as [<- _]. injection Hsrv' as <-. exists srv.
          destruct (Hc _ _ Hw) as (Hnd & _). simpl.
          split; [done|]. split; [|by apply NoDup_filter].
          intros y Hy. by apply list_elem_of_filter in Hy as [_ ?].
        - exists srv'. destruct (Hc _ _ Hsrv') as (Hnd & _). done. }
      split; [done|]. intros y Hin%Hsub.
      destruct (Hc _ _ Hsrv0) as (_ & Hall).
      destruct (Hall _ Hin) as (ws & Hl & Hs).
      destruct (decide (x = y)) as [<-|Hne].
      * rewrite list_lookup_insert_eq by done.
        eexists. split; [done|]. simpl. congruence.
      * exists ws. by rewrite list_lookup_insert_ne.
  - split; simpl.
    + intros y ws [(_ & <- & _)|[Hne Hl]]%list_lookup_insert_Some; [done|].
      by apply Ho.
    + intros w srv Hsrv. destruct (Hc w srv Hsrv) as (Hnd & Hall).
      split; [done|]. intros y Hin. destruct (Hall _ Hin) as (ws & Hl & Hs).
      destruct (decide (x = y)) as [<-|Hne].
      * rewrite list_lookup_insert_eq by done.
        eexists. split; [done|]. simpl. congruence.
      * exists ws. by rewrite list_lookup_insert_ne.
Qed.

Lemma SockInv_next s e : SockInv s -> SockInv (next s e).
Proof.
  intros Hinv. unfold next.
  destruct e as [url K listen launch|K| |c data|c data|c code|c err|w|x|x];
    simpl.
  - unfold api_start_stream. destruct (JsMap.has K (streams s)); [done|].
    pose proof (SockInv_startStream url K listen launch s Hinv) as H.
    by destruct (startStream url K listen launch s) as [s' [r|msg]].
  - unfold api_stop_stream.
    pose proof (SockInv_same _ _ (viewers_stopStream K s) Hinv) as H.
    by destruct (stopStream K s) as [s' r].
  - done.
  - by eapply SockInv_same; [apply viewers_on_stdout_data|].
  - by eapply SockInv_same; [apply viewers_on_stderr_data|].
  - unfold on_close. destruct (children s !! c); [|done].
    eapply SockInv_same; [apply viewers_stopStream|].
    by eapply SockInv_same; [apply viewers_console_log|].
  - unfold on_error. destruct (children s !! c); [|done].
    eapply SockInv_same; [apply viewers_stopStream|].
    by eapply SockInv_same; [apply viewers_console_error|].
  - by apply SockInv_on_ws_connection.
  - by apply SockInv_on_ws_closing.
  - by apply SockInv_on_ws_close.
Qed.

Lemma SockInv_run es s : SockInv s -> SockInv (run es s).
Proof.
  revert s. induction es as [|e es IH]; intros s Hinv; [done|].
  apply IH. by apply SockInv_next.
Qed.

Lemma SockInv_reachable s : reachable s -> SockInv s.
Proof. intros [es ->]. apply SockInv_run, SockInv_init. Qed.

End Viewers.

(** ** What a viewer socket receives *)

Section Delivery.

Lemma sockets_startStream url K listen launch s :
  sockets (fst (startStream url K listen launch s)) = sockets s.
Proof. unfold startStream. by destruct listen, launch. Qed.

Lemma sockets_stopStream K s : sockets (fst (stopStream K s)) = sockets s.
Proof. unfold stopStream. by destruct (JsMap.get K (streams s)). Qed.

Lemma sockets_api_start url K listen launch s :
  sockets (fst (api_start_stream url K listen launch s)) = sockets s.
Proof.
  unfold api_start_stream. destruct (JsMap.has K (streams s)); [done|].
  pose proof (sockets_startStream url K listen launch s) as H.
  by destruct (startStream url K listen launch s) as [s' [r|msg]].
Qed.

(** One event: an OPEN socket receives exactly what its relay's transcoder
    emits, a socket that is not OPEN receives nothing and stays so. *)
Lemma socket_next s e x ws :
  SockInv s -> sockets s !! x = Some ws ->
  exists ws',
    sockets (next s e) !! x = Some ws' /\
    ws_server ws' = ws_server ws /\
    (readyState ws' = 1 -> readyState ws = 1) /\
    sent ws' = sent ws ++ (if decide (readyState ws = 1)
                           then publishes (ws_server ws) e s else []) /\
    (readyState ws = 1 -> stays_open x [e] = true -> readyState ws' = 1).
Proof.
  intros [Ho Hc] Hx.
  assert (Hsame : sockets (next s e) = sockets s ->
                  publishes (ws_server ws) e s = [] ->
                  exists ws', sockets (next s e) !! x = Some ws' /\
                    ws_server ws' = ws_server ws /\
                    (readyState ws' = 1 -> readyState ws = 1) /\
                    sent ws' = sent ws ++
                      (if decide (readyState ws = 1)
                       then publishes (ws_server ws) e s else []) /\
                    (readyState ws = 1 -> stays_open x [e] = true ->
                     readyState ws' = 1)).
  { intros -> ->. exists ws. repeat split; try done.
    case_decide; by rewrite app_nil_r. }
  unfold next in *.
  destruct e as [url K listen launch|K| |c data|c data|c code|c err|w|y|y];
    simpl in *.
  - apply Hsame; [|done].
    pose proof (sockets_api_start url K listen launch s) as H.
    by destruct (api_start_stream url K listen launch s).
  - apply Hsame; [|done]. unfold api_stop_stream.
    pose proof (sockets_stopStream K s) as H.
    by destruct (stopStream K s).
  - by apply Hsame.
  - unfold on_stdout_data in *.
    destruct (children s !! c) as [ch|] eqn:Hch; [|by apply Hsame].
    simpl. unfold clients_of. simpl.
    assert (Hnd : NoDup match servers s !! cp_wss ch with
                        | Some srv => wss_clients srv
                        | None => []
                        end).
    { destruct (servers s !! cp_wss ch) as [srv|] eqn:Hsrv;
        [by apply (Hc _ _ Hsrv) | apply NoDup_nil_2]. }
    rewrite (broadcast_lookup _ _ _ _ _ Hnd Hx).
    eexists. split; [done|].
    destruct (decide (readyState ws = 1)) as [Hopen|Hno].
    + destruct (Ho _ _ Hx Hopen) as (srv & Hsrv & Hin).
      destruct (Nat.eqb_spec (cp_wss ch) (ws_server ws)) as [E|E].
      * rewrite E, Hsrv. rewrite decide_True by done. by repeat split.
      * rewrite decide_False.
        { rewrite app_nil_r. by repeat split. }
        intros [Hin' _].
        destruct (servers s !! cp_wss ch) as [srv'|] eqn:Hsrv';
          [|by apply elem_of_nil in Hin'].
        destruct (Hc _ _ Hsrv') as (_ & Hall).
        destruct (Hall _ Hin') as (ws0 & Hl0 & Hs0). congruence.
    + rewrite decide_False by (by intros [_ ?]).
      rewrite app_nil_r. by repeat split.
  - apply Hsame; [|done]. unfold on_stderr_data.
    destruct (children s !! c); [|done]. by destruct (negb _).
  - apply Hsame; [|done]. unfold on_close.
    destruct (children s !! c); [|done]. by rewrite sockets_stopStream.
  - apply Hsame; [|done]. unfold on_error.
    destruct (children s !! c); [|done]. by rewrite sockets_stopStream.
  - unfold on_ws_connection in *.
    destruct (servers s !! w) as [srv|]; [|by apply Hsame].
    destruct (wss_closed srv); [by apply Hsame|].
    exists ws. split.
    { destruct (wss_on_connection srv); simpl; by apply lookup_app_l_Some. }
    repeat split; try done. case_decide; by rewrite app_nil_r.
  - unfold on_ws_closing in *.
    destruct (sockets s !! y) as [wy|] eqn:Hy; [|by apply Hsame].
    destruct (Z.eqb_spec (readyState wy) 1) as [Hopen|Hno]; [|by apply Hsame].
    simpl. destruct (decide (y = x)) as [->|Hne].
    + rewrite list_lookup_insert_eq by (by eapply lookup_lt_Some).
      assert (wy = ws) as -> by congruence.
      eexists. split; [done|]. simpl. repeat split; try done.
      * case_decide; by rewrite app_nil_r.
      * rewrite Nat.eqb_refl. done.
    + rewrite list_lookup_insert_ne by done. exists ws.
      repeat split; try done. case_decide; by rewrite app_nil_r.
  - unfold on_ws_close in *.
    destruct (sockets s !! y) as [wy|] eqn:Hy; [|by apply Hsame].
    destruct (Z.eqb_spec (readyState wy) 3) as [Hcl|Hno]; [by apply Hsame|].
    assert (Hxlt : (x < length (sockets s))%nat) by (by eapply lookup_lt_Some).
    set (wy' := {| ws_server := ws_server wy; readyState := 3;
                   sent := sent wy |}).
    cbn zeta. cbn [servers with_sockets].
    match goal with
    | |- context [sockets ?t !! _] =>
        assert (sockets t = <[y:=wy']> (sockets s)) as ->
    end.
    { destruct (servers s !! ws_server wy) as [srv|]; [|done].
      by destruct (wss_on_connection srv). }
    destruct (decide (y = x)) as [->|Hne].
    + rewrite list_lookup_insert_eq by done.
      assert (wy = ws) as -> by congruence.
      exists wy'. split; [done|]. simpl. repeat split; try done.
      * case_decide; by rewrite app_nil_r.
      * by rewrite Nat.eqb_refl.
    + rewrite list_lookup_insert_ne by done. exists ws.
      repeat split; try done. case_decide; by rewrite app_nil_r.
Qed.

(** A sequence of events: what the socket has received is what it had, then
    a prefix of what its relay's transcoder emitted, all of it while the
    socket stays OPEN. *)
Lemma socket_run es s x ws :
  SockInv s -> sockets s !! x = Some ws ->
  exists ws',
    sockets (run es s) !! x = Some ws' /\
    ws_server ws' = ws_server ws /\
    (exists p, p `prefix_of` published (ws_server ws) es s /\
               sent ws' = sent ws ++ p /\
               (readyState ws <> 1 -> p = [])) /\
    (readyState ws = 1 -> stays_open x es = true ->
     readyState ws' = 1 /\
     sent ws' = sent ws ++ published (ws_server ws) es s).
Proof.
  revert s ws. induction es as [|e es IH]; intros s ws Hinv Hx.
  - exists ws. simpl. repeat split; try done; [|by rewrite app_nil_r].
    exists []. by rewrite app_nil_r.
  - destruct (socket_next s e x ws Hinv Hx)
      as (ws1 & Hx1 & Hs1 & Hr1 & Hsent1 & Hopen1).
    destruct (IH (next s e) ws1 (SockInv_next _ _ Hinv) Hx1)
      as (ws' & Hx' & Hs' & (p & Hp & Hsent' & Hnil) & Hopen').
    exists ws'. cbn [run fold_left published]. rewrite Hs1 in *.
    split; [done|]. split; [congruence|]. split.
    + destruct (decide (readyState ws = 1)) as [Ho|Hn].
      * exists (publishes (ws_server ws) e s ++ p).
        split; [by apply prefix_app|]. split; [|done].
        by rewrite Hsent', Hsent1, <- app_assoc.
      * exists []. split; [apply prefix_nil|]. split; [|done].
        rewrite Hsent', Hsent1, Hnil, !app_nil_r; [done|]. tauto.
    + intros Ho Hstay. simpl in Hstay. apply andb_true_iff in Hstay as [He Hes].
      assert (Ho1 : readyState ws1 = 1).
      { apply Hopen1; [done|]. simpl. by rewrite He. }
      destruct (Hopen' Ho1 Hes) as [Ho' Hsent'']. split; [done|].
      rewrite Hsent'', Hsent1, decide_True by done. by rewrite <- app_assoc.
Qed.

End Delivery.

(** ** The children *)

Section Children.
Import JsMapFacts.

Lemma child_stopStream K s c ch :
  children s !! c = Some ch ->
  exists ch', children (fst (stopStream K s)) !! c = Some ch' /\
    cp_wsPort ch' = cp_wsPort ch /\ cp_wss ch' = cp_wss ch /\
    cp_totalBytes ch' = cp_totalBytes ch.
Proof.
  intros Hc. unfold stopStream.
  destruct (JsMap.get K (streams s)) as [info|]; [|by exists ch].
  simpl. rewrite list_lookup_alter. case_decide as Hd; [|by exists ch].
  rewrite Hd, Hc. simpl. by eexists.
Qed.

Lemma child_startStream url K listen launch s c ch :
  children s !! c = Some ch ->
  children (fst (startStream url K listen launch s)) !! c = Some ch.
Proof.
  intros Hc. unfold startStream. destruct listen, launch; simpl; try done;
    by apply lookup_app_l_Some.
Qed.

(** One event: a child object keeps its port and its relay, and its local
    [totalBytes] grows by the length of the chunk it wrote. *)
Lemma child_next s e c ch :
  children s !! c = Some ch ->
  exists ch', children (next s e) !! c = Some ch' /\
    cp_wsPort ch' = cp_wsPort ch /\ cp_wss ch' = cp_wss ch /\
    cp_totalBytes ch' = cp_totalBytes ch + stdout_bytes c [e].
Proof.
  intros Hc. unfold next.
  destruct e as [url K listen launch|K| |c' data|c' data|c' code|c' err|w|x|x];
    simpl; rewrite ?Z.add_0_r.
  - exists ch. split; [|done]. unfold api_start_stream.
    destruct (JsMap.has K (streams s)); [done|].
    pose proof (child_startStream url K listen launch s c ch Hc) as H.
    by destruct (startStream url K listen launch s) as [s' [r|msg]].
  - unfold api_stop_stream.
    pose proof (child_stopStream K s c ch Hc) as H.
    by destruct (stopStream K s).
  - by exists ch.
  - unfold on_stdout_data. destruct (Nat.eqb_spec c' c) as [->|Hne].
    + rewrite Hc. simpl.
      rewrite list_lookup_insert_eq by (by eapply lookup_lt_Some).
      eexists. by repeat split.
    + rewrite Z.add_0_r. exists ch. split; [|done].
      destruct (children s !! c'); [|done]. simpl.
      by rewrite list_lookup_insert_ne.
  - exists ch. split; [|done]. unfold on_stderr_data.
    destruct (children s !! c'); [|done]. by destruct (negb _).
  - unfold on_close. destruct (children s !! c'); [|by exists ch].
    by apply child_stopStream.
  - unfold on_error. destruct (children s !! c'); [|by exists ch].
    by apply child_stopStream.
  - exists ch. split; [|done]. unfold on_ws_connection.
    destruct (servers s !! w) as [srv|]; [|done].
    destruct (wss_closed srv); [done|]. by destruct (wss_on_connection srv).
  - exists ch. split; [|done]. unfold on_ws_closing.
    destruct (sockets s !! x) as [ws|]; [|done]. by destruct (_ =? _).
  - exists ch. split; [|done]. unfold on_ws_close.
    destruct (sockets s !! x) as [ws|]; [|done].
    destruct (_ =? _); [done|]. simpl.
    destruct (servers s !! ws_server ws) as [srv|]; [|done].
    by destruct (wss_on_connection srv).
Qed.

Lemma stdout_bytes_cons c e es :
  stdout_bytes c (e :: es) = stdout_bytes c [e] + stdout_bytes c es.
Proof. destruct e; simpl; lia. Qed.

Lemma child_run es s c ch :
  children s !! c = Some ch ->
  exists ch', children (run es s) !! c = Some ch' /\
    cp_wsPort ch' = cp_wsPort ch /\ cp_wss ch' = cp_wss ch /\
    cp_totalBytes ch' = cp_totalBytes ch + stdout_bytes c es.
Proof.
  revert s ch. induction es as [|e es IH]; intros s ch Hc.
  - exists ch. simpl. repeat split; try done. lia.
  - destruct (child_next s e c ch Hc) as (ch1 & Hc1 & Hp1 & Hw1 & Hb1).
    destruct (IH _ _ Hc1) as (ch' & Hc' & Hp' & Hw' & Hb').
    exists ch'. rewrite stdout_bytes_cons.
    split; [exact Hc'|]. repeat split; try congruence. lia.
Qed.

(** An event that is no teardown leaves the entry of [K] in place. *)
Lemma entry_next K info s e :
  JsMap.get K (streams s) = Some info -> no_teardown K [e] = true ->
  JsMap.get K (streams (next s e)) = Some info.
Proof.
  intros Hget Hno. unfold next.
  destruct e as [url K' listen launch|K'| |c data|c data|c code|c err|w|x|x];
    simpl in *; try done.
  - unfold api_start_stream.
    destruct (JsMap.has K' (streams s)) eqn:Hhas; [done|].
    apply has_false in Hhas.
    assert (K' <> K) as Hne by congruence.
    unfold startStream. destruct listen, launch; simpl; try done;
      by rewrite get_set_ne.
  - rewrite andb_true_r in Hno. apply negb_true_iff, Z.eqb_neq in Hno.
    unfold api_stop_stream, stopStream.
    destruct (JsMap.get K' (streams s)); [|done]. simpl.
    by rewrite get_delete_ne.
  - unfold on_stdout_data. by destruct (children s !! c).
  - unfold on_stderr_data. destruct (children s !! c); [|done].
    by destruct (negb _).
  - unfold on_ws_connection. destruct (servers s !! w) as [srv|]; [|done].
    destruct (wss_closed srv); [done|]. by destruct (wss_on_connection srv).
  - unfold on_ws_closing. destruct (sockets s !! x) as [ws|]; [|done].
    by destruct (_ =? _).
  - unfold on_ws_close. destruct (sockets s !! x) as [ws|]; [|done].
    destruct (_ =? _); [done|]. simpl.
    destruct (servers s !! ws_server ws) as [srv|]; [|done].
    by destruct (wss_on_connection srv).
Qed.

Lemma entry_run K info es s :
  JsMap.get K (streams s) = Some info -> no_teardown K es = true ->
  JsMap.get K (streams (run es s)) = Some info.
Proof.
  revert s. induction es as [|e es IH]; intros s Hget Hno; [done|].
  simpl in Hno. apply andb_true_iff in Hno as [He Hes].
  apply IH; [|done]. apply entry_next; [done|]. simpl. by rewrite He.
Qed.

Lemma listed_keys s : listed s = JsMap.keys (streams s).
Proof.
  unfold listed, api_streams, JsMap.keys, JsMap.entries. simpl.
  rewrite map_map. apply map_ext. by intros [K info].
Qed.

End Children.

(** * The claims *)

Section Claims.
Import JsMapFacts.

Lemma reachable_init : reachable init.
Proof. by exists []. Qed.

Lemma reachable_run es s : reachable s -> reachable (run es s).
Proof.
  intros [es0 ->]. exists (es0 ++ es). unfold run. by rewrite fold_left_app.
Qed.

(** The two scenarios of the specification, run on the model. *)
Example scenario_control_plane :
  responses [HttpStart "src://cam1" 9900 Listens SpawnRuns;
             HttpStart "src://cam2" 9900 Listens SpawnRuns;
             HttpStop 9900; HttpStreams] init
  = [started 9900; already_active 9900;
     {| status := 200; body := JsonResult (stopped 9900) |};
     {| status := 200; body := JsonStreams [] |}].
Proof. reflexivity. Qed.

Example scenario_fan_out :
  map sent
      (sockets (run [HttpStart "src://cam1" 9900 Listens SpawnRuns;
                     WsConnection 0; WsConnection 0;
                     StdoutData 0 "A"; StdoutData 0 "B";
                     WsConnection 0; StdoutData 0 "C"] init))
  = [["A"; "B"; "C"]; ["A"; "B"; "C"]; ["C"]]%string.
Proof. reflexivity. Qed.

(** A child that outlives its session: after stop and a new start on the
    same port, the exit of the first child stops the second session, because
    its handler calls [stopStream] with the port alone. *)
Example stale_exit_stops_new_session :
  let s := run [HttpStart "src://cam1" 9900 Listens SpawnRuns; HttpStop 9900;
                HttpStart "src://cam2" 9900 Listens SpawnRuns] init in
  listed s = [9900] /\ listed (next s (ChildClose 0 (Some 255))) = [].
Proof. split; reflexivity. Qed.

(** A start request on an absent key, when nothing throws, registers the
    relay and the handle it creates and answers with success. *)
Lemma start_registers url K listen launch s :
  JsMap.has K (streams s) = false -> thrown listen launch = None ->
  snd (step (HttpStart url K listen launch) s) = Some (started K) /\
  JsMap.get K (streams (next s (HttpStart url K listen launch)))
  = Some {| rtspUrl := url; wss := length (servers s);
            ffmpeg := length (children s); totalBytes := 0 |}.
Proof.
  intros Hhas Hthrown. unfold next. simpl. unfold api_start_stream.
  rewrite Hhas. unfold startStream.
  destruct listen; [|done]. destruct launch; try done; simpl;
    by rewrite get_set_eq.
Qed.

(** C1 fails as stated: a start request whose [spawn] throws leaves the relay
    created on the line before listening on port 9900, and 9900 was never
    inserted into [streams]. *)
Lemma relay_bound_unregistered :
  let s := run [HttpStart "rtsp://cam" 9900 Listens (SpawnThrows "spawn E2BIG")]
               init in
  reachable s /\ live_relay s 0 /\ relay_on s 9900 0 /\
  JsMap.has 9900 (streams s) = false /\
  ~ (forall K w, live_relay s w -> relay_on s K w ->
                 JsMap.has K (streams s) = true).
Proof.
  split; [apply reachable_run, reachable_init|].
  assert (Hl : live_relay
                 (run [HttpStart "rtsp://cam" 9900 Listens
                         (SpawnThrows "spawn E2BIG")] init) 0)
    by (by eexists).
  assert (Hr : relay_on
                 (run [HttpStart "rtsp://cam" 9900 Listens
                         (SpawnThrows "spawn E2BIG")] init) 9900 0)
    by (by eexists).
  repeat split; try done. intros H. by specialize (H 9900 0%nat Hl Hr).
Qed.

(** C1, amended: a start request creates a relay only when its key is absent
    from [streams], and one that answers with success has registered the relay
    and the handle it created; [startStream] inserts the key into a state in
    which the relay is already listening and the key is still absent; at every
    reachable state an entry of [streams] refers to a relay that is not closed
    and a handle that is not killed, both made for its key, at most one handle
    that is not killed exists per key, and at most one relay that is not
    closed and is fed by a transcoder. *)
Theorem session_objects s :
  reachable s ->
  (forall url K listen launch,
     servers (next s (HttpStart url K listen launch)) <> servers s ->
     JsMap.has K (streams s) = false) /\
  (forall url K listen launch,
     snd (step (HttpStart url K listen launch) s) = Some (started K) ->
     servers s !! length (servers s) = None /\
     children s !! length (children s) = None /\
     registered (next s (HttpStart url K listen launch)) K
                (length (servers s)) (length (children s))) /\
  (forall url K launch,
     JsMap.has K (streams s) = false -> thrown Listens launch = None ->
     let s0 := console_log ("Starting stream: " +:+ url +:+ " on port "
                            +:+ JsString.ofNumber K) s in
     let s1 := fst (new_WebSocketServer K s0) in
     let w := snd (new_WebSocketServer K s0) in
     let s2 := fst (spawn url K w s1) in
     let c := snd (spawn url K w s1) in
     live_relay s2 w /\ relay_on s2 K w /\ JsMap.has K (streams s2) = false /\
     next s (HttpStart url K Listens launch)
     = on_connection w
         (with_streams
            (JsMap.set K {| rtspUrl := url; wss := w; ffmpeg := c;
                            totalBytes := 0 |} (streams s2)) s2)) /\
  (forall K w c,
     registered s K w c ->
     live_relay s w /\ relay_on s K w /\ live_handle s c /\ handle_for s K c) /\
  (forall K c c',
     live_handle s c -> handle_for s K c ->
     live_handle s c' -> handle_for s K c' -> c = c') /\
  (forall K w w',
     live_relay s w -> relay_on s K w -> fed s w ->
     live_relay s w' -> relay_on s K w' -> fed s w' -> w = w').
Proof.
  intros Hreach. destruct (SessInv_reachable s Hreach) as [Hk He Hch].
  assert (Hhandle : forall K c, live_handle s c -> handle_for s K c ->
            exists info, JsMap.get K (streams s) = Some info /\ ffmpeg info = c).
  { intros K c (ch & Hc & Hlive) (ch0 & Hc0 & Hport).
    assert (ch0 = ch) as -> by congruence.
    destruct (Hch c ch Hc) as (srv & _ & _ & Hreg).
    rewrite Hlive, Hport in Hreg. done. }
  assert (Hrelay : forall K w, live_relay s w -> relay_on s K w -> fed s w ->
            exists info, JsMap.get K (streams s) = Some info /\ wss info = w).
  { intros K w (srv & Hw & Hlive) (srv0 & Hw0 & Hport) (c & ch & Hc & Hfed).
    assert (srv0 = srv) as -> by congruence.
    destruct (Hch c ch Hc) as (srv' & Hsrv' & Hp' & Hreg).
    rewrite Hfed in Hsrv'. assert (srv' = srv) as -> by congruence.
    destruct (cp_killed ch); [congruence|].
    destruct Hreg as (info & Hget & Hf). exists info.
    rewrite <- Hp', Hport in Hget. split; [done|].
    destruct (He K info Hget) as (_ & srv1 & ch1 & _ & _ & _ & Hc1 & _ & Hw1 & _).
    rewrite Hf in Hc1. congruence. }
  repeat split.
  - intros url K listen launch Hservers.
    destruct (JsMap.has K (streams s)) eqn:Hhas; [|done].
    destruct Hservers. unfold next. simpl. unfold api_start_stream.
    by rewrite Hhas.
  - apply lookup_ge_None. lia.
  - apply lookup_ge_None. lia.
  - revert H. unfold next. simpl. unfold api_start_stream.
    destruct (JsMap.has K (streams s)) eqn:Hhas; [done|].
    unfold startStream. destruct listen; [|done].
    destruct launch; try done; simpl; intros _; eexists; simpl;
      by rewrite get_set_eq.
  - eexists. split; [by apply list_lookup_middle | done].
  - eexists. split; [by apply list_lookup_middle | done].
  - done.
  - unfold next. simpl. unfold api_start_stream. rewrite H.
    unfold startStream. by destruct launch.
  - destruct H as (info & Hget & <- & <-).
    destruct (He K info Hget) as (_ & srv & ch & Hsrv & _ & Hcl & _).
    by exists srv.
  - destruct H as (info & Hget & <- & <-).
    destruct (He K info Hget) as (_ & srv & ch & Hsrv & Hp & _).
    by exists srv.
  - destruct H as (info & Hget & <- & <-).
    destruct (He K info Hget) as (_ & srv & ch & _ & _ & _ & Hc & _ & _ & Hkl).
    by exists ch.
  - destruct H as (info & Hget & <- & <-).
    destruct (He K info Hget) as (_ & srv & ch & _ & _ & _ & Hc & Hp & _).
    by exists ch.
  - intros K c c' Hl Hf Hl' Hf'.
    destruct (Hhandle K c Hl Hf) as (info & Hget & <-).
    destruct (Hhandle K c' Hl' Hf') as (info' & Hget' & <-). congruence.
  - intros K w w' Hl Hr Hfd Hl' Hr' Hfd'.
    destruct (Hrelay K w Hl Hr Hfd) as (info & Hget & <-).
    destruct (Hrelay K w' Hl' Hr' Hfd') as (info' & Hget' & <-). congruence.
Qed.

Lemma session_objects_witness :
  reachable (run [HttpStart "rtsp://cam" 9900 Listens SpawnRuns] init) /\
  registered (run [HttpStart "rtsp://cam" 9900 Listens SpawnRuns] init)
             9900 0 0 /\
  live_relay (run [HttpStart "rtsp://cam" 9900 Listens SpawnRuns] init) 0 /\
  live_handle (run [HttpStart "rtsp://cam" 9900 Listens SpawnRuns] init) 0.
Proof.
  assert (Hreach : reachable
            (run [HttpStart "rtsp://cam" 9900 Listens SpawnRuns] init))
    by (eexists; reflexivity).
  assert (Hreg : registered
            (run [HttpStart "rtsp://cam" 9900 Listens SpawnRuns] init)
            9900 0 0)
    by (eexists; repeat split; reflexivity).
  pose proof (session_objects _ Hreach) as (_ & _ & _ & Hentry & _).
  destruct (Hentry 9900 0%nat 0%nat Hreg) as (Hl & _ & Hh & _).
  done.
Defined.

(** C2 fails as stated: when the executable is not found, [spawn] still
    returns a child object, so the start request registers port 9900 and
    answers with success; the failure arrives later as an ['error'] event. *)
Lemma launch_failure_reported_as_success :
  let e := HttpStart "rtsp://cam" 9900 Listens (SpawnFails "spawn ffmpeg ENOENT")
  in
  snd (step e init) = Some (started 9900) /\
  JsMap.has 9900 (streams (next init e)) = true /\
  ~ (forall url K listen launch s r,
       (thrown listen launch <> None \/ exists err, launch = SpawnFails err) ->
       snd (step (HttpStart url K listen launch) s)
       = Some {| status := 200; body := JsonResult r |} ->
       success r = false).
Proof.
  repeat split. intros H.
  specialize (H "rtsp://cam"%string 9900 Listens
                (SpawnFails "spawn ffmpeg ENOENT") init _
                (or_intror (ex_intro _ _ eq_refl)) eq_refl).
  done.
Qed.

(** C2, amended: on a start request for a key that is not registered, when
    [new WebSocketServer] or [spawn] throws, no session is registered and the
    caller receives the failure result carrying the exception's message; when
    the launch fails without throwing, the session is registered and the
    caller receives success, and the child's ['error'] event then removes the
    session. *)
Theorem start_failure url K listen launch s :
  JsMap.has K (streams s) = false ->
  (forall msg,
     thrown listen launch = Some msg ->
     snd (step (HttpStart url K listen launch) s)
     = Some {| status := 400; body := JsonResult (failure msg) |} /\
     streams (next s (HttpStart url K listen launch)) = streams s) /\
  (forall err,
     listen = Listens -> launch = SpawnFails err ->
     snd (step (HttpStart url K listen launch) s) = Some (started K) /\
     registered (next s (HttpStart url K listen launch)) K
                (length (servers s)) (length (children s)) /\
     JsMap.get K (streams (next (next s (HttpStart url K listen launch))
                                (ChildError (length (children s)) err)))
     = None).
Proof.
  intros Hhas. split.
  - intros msg Hthrown. unfold next. simpl. unfold api_start_stream.
    rewrite Hhas. unfold startStream.
    destruct listen; [destruct launch|]; simpl in *; try done;
      by injection Hthrown as ->.
  - intros err -> ->.
    destruct (start_registers url K Listens (SpawnFails err) s Hhas eq_refl)
      as [Hresp Hget].
    split; [done|]. split; [by eexists|].
    unfold next at 1. simpl. unfold on_error.
    assert (Hchild : exists ch,
              children (next s (HttpStart url K Listens (SpawnFails err)))
                !! length (children s) = Some ch /\ cp_wsPort ch = K).
    { unfold next. simpl. unfold api_start_stream. rewrite Hhas. simpl.
      eexists. split; [by apply list_lookup_middle | done]. }
    destruct Hchild as (ch & -> & ->).
    unfold stopStream. simpl. rewrite Hget. simpl. apply get_delete_eq.
Qed.

Lemma start_failure_witness :
  JsMap.has 9900 (streams init) = false /\
  snd (step (HttpStart "rtsp://cam" 9900 (ListenThrows "bad port") SpawnRuns)
            init)
  = Some {| status := 400; body := JsonResult (failure "bad port") |}.
Proof.
  split; [reflexivity|].
  apply (start_failure "rtsp://cam" 9900 (ListenThrows "bad port") SpawnRuns
                       init eq_refl).
  reflexivity.
Defined.

(** C3: two start requests for a key [K] with no stop, exit or failure in
    between: the first succeeds, the second is answered with the one failure
    "Port K is already in use" and changes nothing, and [streams] then holds
    exactly one entry for [K], the one of the first request. *)
Theorem start_twice url1 url2 K launch1 listen2 launch2 es s :
  reachable s ->
  JsMap.has K (streams s) = false ->
  thrown Listens launch1 = None ->
  no_teardown K es = true ->
  let s1 := next s (HttpStart url1 K Listens launch1) in
  let s2 := run es s1 in
  snd (step (HttpStart url1 K Listens launch1) s) = Some (started K) /\
  step (HttpStart url2 K listen2 launch2) s2 = (s2, Some (already_active K)) /\
  JsMap.count K (streams s2) = 1%nat /\
  JsMap.get K (streams s2) = JsMap.get K (streams s1) /\
  exists info, JsMap.get K (streams s2) = Some info /\ rtspUrl info = url1.
Proof.
  intros Hreach Hhas Hthrown Hno s1 s2.
  destruct (start_registers url1 K Listens launch1 s Hhas Hthrown)
    as [Hresp Hget].
  fold s1 in Hget.
  pose proof (entry_run K _ es s1 Hget Hno) as Hget2. fold s2 in Hget2.
  assert (Hinv : SessInv s2).
  { apply SessInv_reachable. apply reachable_run.
    destruct Hreach as [es0 ->].
    exists (es0 ++ [HttpStart url1 K Listens launch1]).
    unfold s1, run. by rewrite fold_left_app. }
  split; [done|]. split.
  - simpl. unfold api_start_stream, JsMap.has. by rewrite Hget2.
  - split; [by eapply count_present; [apply Hinv|]|].
    split; [congruence|]. by eexists.
Qed.

Lemma start_twice_witness :
  JsMap.has 9900 (streams init) = false /\
  step (HttpStart "src://cam2" 9900 Listens SpawnRuns)
       (run [WsConnection 0; StdoutData 0 "A"]
            (next init (HttpStart "src://cam1" 9900 Listens SpawnRuns)))
  = (run [WsConnection 0; StdoutData 0 "A"]
         (next init (HttpStart "src://cam1" 9900 Listens SpawnRuns)),
     Some (already_active 9900)).
Proof.
  split; [reflexivity|].
  apply (start_twice "src://cam1" "src://cam2" 9900 SpawnRuns Listens SpawnRuns
                     [WsConnection 0; StdoutData 0 "A"] init
                     reachable_init eq_refl eq_refl eq_refl).
Defined.

(** [stopStream] on a registered key closes the server of the session and
    nothing else of the relay. *)
Lemma stopStream_listener_closed K info s :
  SessInv s -> JsMap.get K (streams s) = Some info ->
  listener_closed s (fst (stopStream K s)) (wss info).
Proof.
  intros [_ He _] Hget.
  destruct (He K info Hget) as (_ & srv & ch & Hsrv & _ & _ & _).
  unfold listener_closed, on_ws_connection, clients_of, stopStream.
  rewrite Hget. simpl. rewrite list_lookup_alter_eq, Hsrv. simpl.
  split; [by eexists | done].
Qed.

(** A viewer of the session that is OPEN when [stopStream] runs is OPEN
    afterwards, and is sent what the child writes next. *)
Lemma stopStream_still_fed K info s x ws data :
  SessInv s -> SockInv s -> JsMap.get K (streams s) = Some info ->
  sockets s !! x = Some ws -> ws_server ws = wss info -> readyState ws = 1 ->
  exists ws',
    sockets (next (fst (stopStream K s)) (StdoutData (ffmpeg info) data)) !! x
    = Some ws' /\
    readyState ws' = 1 /\ sent ws' = sent ws ++ [data].
Proof.
  intros [_ He _] Hsock Hget Hx Hw Hopen.
  destruct (He K info Hget) as (_ & srv & ch & _ & _ & _ & Hch & _ & Hcw & _).
  assert (Hsock' : SockInv (fst (stopStream K s))).
  { eapply SockInv_same; [apply viewers_stopStream | done]. }
  assert (Hx' : sockets (fst (stopStream K s)) !! x = Some ws).
  { by rewrite sockets_stopStream. }
  destruct (socket_next _ (StdoutData (ffmpeg info) data) x ws Hsock' Hx')
    as (ws' & Hx1 & _ & _ & Hsent & Hstay).
  exists ws'. split; [done|]. split; [by apply Hstay|].
  rewrite Hsent, decide_True by done. f_equal.
  rewrite Hw. unfold publishes, stopStream. rewrite Hget. simpl.
  rewrite list_lookup_alter_eq, Hch. simpl. by rewrite Hcw, Nat.eqb_refl.
Qed.

(** C4 fails as stated: with one viewer connected to the relay of the
    session on port 9900, [stopStream(9900)] leaves that viewer's socket
    OPEN, so the relay is not shut down as the specification has it, and the
    viewer is still sent the next chunk the child writes. *)
Lemma stop_leaves_viewers_connected :
  let s := run [HttpStart "src://cam1" 9900 Listens SpawnRuns;
                WsConnection 0] init in
  let s' := fst (stopStream 9900 s) in
  reachable s /\
  JsMap.get 9900 (streams s)
  = Some {| rtspUrl := "src://cam1"; wss := 0; ffmpeg := 0; totalBytes := 0 |}
  /\ snd (stopStream 9900 s) = stopped 9900
  /\ sockets s' !! 0%nat
     = Some {| ws_server := 0; readyState := 1; sent := [] |}
  /\ sockets (next s' (StdoutData 0 "X")) !! 0%nat
     = Some {| ws_server := 0; readyState := 1; sent := ["X"%string] |}
  /\ ~ relay_shut_down s' 0.
Proof.
  intros s s'. split; [apply reachable_run, reachable_init|].
  repeat (split; [reflexivity|]).
  intros [_ Hall].
  by apply (Hall 0%nat {| ws_server := 0; readyState := 1; sent := [] |}).
Qed.

(** C4, amended: [stopStream] on a registered key sends SIGTERM to the
    session's child process and calls [close()] on its WebSocket server,
    which from then on accepts no viewer, while the sockets of the viewers
    already connected stay as they are: one that is OPEN stays OPEN and is
    sent the next chunk the child writes; the key is removed from [streams],
    the other keys are kept, and the result is success with the key as
    [port]. *)
Theorem stop_registered K info s :
  reachable s ->
  JsMap.get K (streams s) = Some info ->
  let s' := fst (stopStream K s) in
  snd (stopStream K s) = stopped K /\
  api_stop_stream K s
  = (s', {| status := 200; body := JsonResult (stopped K) |}) /\
  (exists ch, children s' !! ffmpeg info = Some ch /\ cp_killed ch = true) /\
  (exists srv, servers s' !! wss info = Some srv /\ wss_closed srv = true) /\
  JsMap.get K (streams s') = None /\
  (forall K', K' <> K -> JsMap.get K' (streams s') = JsMap.get K' (streams s))
  /\ listener_closed s s' (wss info) /\
  (forall x ws data,
     sockets s !! x = Some ws -> ws_server ws = wss info ->
     readyState ws = 1 ->
     exists ws',
       sockets (next s' (StdoutData (ffmpeg info) data)) !! x = Some ws' /\
       readyState ws' = 1 /\ sent ws' = sent ws ++ [data]).
Proof.
  intros Hreach Hget s'.
  pose proof (SessInv_reachable s Hreach) as Hinv.
  pose proof (SockInv_reachable s Hreach) as Hsock.
  pose proof (stopStream_listener_closed K info s Hinv Hget) as Hclosed.
  pose proof (fun x ws data =>
                stopStream_still_fed K info s x ws data Hinv Hsock Hget)
    as Hfed.
  destruct Hinv as [_ He _].
  destruct (He K info Hget) as (_ & srv & ch & Hsrv & _ & _ & Hch & _).
  subst s'. revert Hclosed Hfed.
  unfold api_stop_stream, stopStream. rewrite Hget. simpl.
  intros Hclosed Hfed.
  split; [done|]. split; [done|]. split.
  { rewrite list_lookup_alter_eq, Hch. by eexists. }
  split.
  { rewrite list_lookup_alter_eq, Hsrv. by eexists. }
  split; [apply get_delete_eq|]. split.
  { intros K' Hne. by apply get_delete_ne. }
  split; [exact Hclosed | exact Hfed].
Qed.

Lemma stop_registered_witness :
  let s := run [HttpStart "src://cam1" 9900 Listens SpawnRuns;
                WsConnection 0] init in
  JsMap.get 9900 (streams s)
  = Some {| rtspUrl := "src://cam1"; wss := 0; ffmpeg := 0; totalBytes := 0 |}
  /\ clients_of 0 (fst (stopStream 9900 s)) = [0%nat]
  /\ snd (stopStream 9900 s) = stopped 9900.
Proof.
  intros s. split; [reflexivity|]. split; [reflexivity|].
  apply (proj1 (stop_registered 9900
                  {| rtspUrl := "src://cam1"; wss := 0; ffmpeg := 0;
                     totalBytes := 0 |} s
                  (reachable_run _ init reachable_init) eq_refl)).
Defined.

(** C5: [stopStream] on a key that is not in [streams] returns the failure
    "No stream found" and leaves the whole state as it is; so after one
    teardown of [K] a second [stopStream(K)] changes nothing, and the exit or
    error handler of a child started for [K] only writes its console line. *)
Theorem stop_absent K s :
  JsMap.get K (streams s) = None ->
  stopStream K s = (s, not_found K) /\
  api_stop_stream K s
  = (s, {| status := 200; body := JsonResult (not_found K) |}) /\
  (forall s0, let s1 := fst (stopStream K s0) in
              stopStream K s1 = (s1, not_found K)) /\
  (forall c ch code,
     children s !! c = Some ch -> cp_wsPort ch = K ->
     on_close c code s
     = console_log ("FFmpeg process exited with code "
                    +:+ JsString.ofCode code) s) /\
  (forall c ch err,
     children s !! c = Some ch -> cp_wsPort ch = K ->
     on_error c err s = console_error ("FFmpeg error: " +:+ err) s).
Proof.
  intros Habs.
  assert (Hstop : forall s, JsMap.get K (streams s) = None ->
                            stopStream K s = (s, not_found K)).
  { intros s0 H0. unfold stopStream. by rewrite H0. }
  split; [by apply Hstop|]. split.
  { unfold api_stop_stream. by rewrite Hstop. }
  split.
  { intros s0 s1. apply Hstop. subst s1. unfold stopStream.
    destruct (JsMap.get K (streams s0)) eqn:H0; [|done].
    simpl. apply get_delete_eq. }
  split.
  - intros c ch code Hc <-. unfold on_close. rewrite Hc.
    by rewrite Hstop.
  - intros c ch err Hc <-. unfold on_error. rewrite Hc.
    by rewrite Hstop.
Qed.

Lemma stop_absent_witness :
  JsMap.get 9900 (streams init) = None /\
  stopStream 9900 init = (init, not_found 9900).
Proof.
  split; [reflexivity|]. apply (stop_absent 9900 init eq_refl).
Defined.

(** C6: a chunk written by a transcoder is sent to every OPEN socket in the
    client set of its relay; two viewers of one relay that stay connected
    receive, after what they already had, exactly the chunks the transcoder
    emits, in the order it emits them, the same sequence for both. *)
Theorem relay_in_order s es x y wx wy :
  reachable s ->
  sockets s !! x = Some wx -> readyState wx = 1 -> stays_open x es = true ->
  sockets s !! y = Some wy -> readyState wy = 1 -> stays_open y es = true ->
  ws_server wy = ws_server wx ->
  (forall c ch data,
     children s !! c = Some ch -> x ∈ clients_of (cp_wss ch) s ->
     exists wx1, sockets (next s (StdoutData c data)) !! x = Some wx1 /\
                 sent wx1 = sent wx ++ [data]) /\
  exists wx' wy',
    sockets (run es s) !! x = Some wx' /\
    sockets (run es s) !! y = Some wy' /\
    sent wx' = sent wx ++ published (ws_server wx) es s /\
    sent wy' = sent wy ++ published (ws_server wx) es s.
Proof.
  intros Hreach Hx Hox Hsx Hy Hoy Hsy Hsame.
  pose proof (SockInv_reachable s Hreach) as Hinv. split.
  - intros c ch data Hc Hin.
    destruct (socket_next s (StdoutData c data) x wx Hinv Hx)
      as (wx1 & Hx1 & _ & _ & Hsent & _).
    exists wx1. split; [done|]. rewrite Hsent, decide_True by done.
    simpl. rewrite Hc.
    enough (ws_server wx = cp_wss ch) as -> by (by rewrite Nat.eqb_refl).
    unfold clients_of in Hin.
    destruct (servers s !! cp_wss ch) as [srv|] eqn:Hsrv;
      [|by apply elem_of_nil in Hin].
    destruct Hinv as [_ Hc']. destruct (Hc' _ _ Hsrv) as (_ & Hall).
    destruct (Hall _ Hin) as (ws & Hl & Hs). congruence.
  - destruct (socket_run es s x wx Hinv Hx) as (wx' & Hx' & _ & _ & Hopen).
    destruct (socket_run es s y wy Hinv Hy) as (wy' & Hy' & _ & _ & Hopen').
    destruct (Hopen Hox Hsx) as [_ Hsent].
    destruct (Hopen' Hoy Hsy) as [_ Hsent'].
    exists wx', wy'. rewrite Hsame in Hsent'. done.
Qed.

Lemma relay_in_order_witness :
  let s := run [HttpStart "src://cam1" 9900 Listens SpawnRuns;
                WsConnection 0; StdoutData 0 "Z"; WsConnection 0] init in
  let es := [StdoutData 0 "A"; StdoutData 0 "B"; StdoutData 0 "C"] in
  exists wx' wy',
    sockets (run es s) !! 0%nat = Some wx' /\
    sockets (run es s) !! 1%nat = Some wy' /\
    sent wx' = ["Z"; "A"; "B"; "C"]%string /\
    sent wy' = ["A"; "B"; "C"]%string.
Proof.
  intros s es.
  assert (Hreach : reachable s) by (eexists; reflexivity).
  destruct (relay_in_order s es 0%nat 1%nat
              {| ws_server := 0; readyState := 1; sent := ["Z"%string] |}
              {| ws_server := 0; readyState := 1; sent := [] |}
              Hreach eq_refl eq_refl eq_refl eq_refl eq_refl eq_refl eq_refl)
    as (_ & wx' & wy' & Hx & Hy & Hsx & Hsy).
  exists wx', wy'. repeat split; assumption.
Defined.

(** C7: a viewer accepted by a relay has received nothing at that moment,
    whatever was published before, and all it ever receives is a prefix of the
    chunks the transcoder emits after the connection. *)
Theorem no_replay s w srv es :
  reachable s ->
  servers s !! w = Some srv -> wss_closed srv = false ->
  let x := length (sockets s) in
  let s1 := next s (WsConnection w) in
  sockets s1 !! x = Some {| ws_server := w; readyState := 1; sent := [] |} /\
  exists ws', sockets (run es s1) !! x = Some ws' /\
              sent ws' `prefix_of` published w es s1.
Proof.
  intros Hreach Hw Hcl x s1.
  assert (Hx : sockets s1 !! x
               = Some {| ws_server := w; readyState := 1; sent := [] |}).
  { subst s1 x. unfold next. simpl. unfold on_ws_connection.
    rewrite Hw, Hcl. destruct (wss_on_connection srv); simpl;
      by apply list_lookup_middle. }
  split; [done|].
  assert (Hinv : SockInv s1).
  { apply SockInv_next. by apply SockInv_reachable. }
  destruct (socket_run es s1 x _ Hinv Hx)
    as (ws' & Hx' & _ & (p & Hp & Hsent & _) & _).
  exists ws'. split; [done|]. by rewrite Hsent.
Qed.

Lemma no_replay_witness :
  let s := run [HttpStart "src://cam1" 9900 Listens SpawnRuns;
                WsConnection 0; StdoutData 0 "A"; StdoutData 0 "B"] init in
  let es := [StdoutData 0 "C"; WsClose 2; StdoutData 0 "D"] in
  exists ws', sockets (run es (next s (WsConnection 0))) !! 1%nat = Some ws' /\
              sent ws' `prefix_of` ["C"; "D"]%string.
Proof.
  intros s es.
  assert (Hreach : reachable s) by (eexists; reflexivity).
  apply (no_replay s 0%nat
           {| wss_port := 9900; wss_closed := false; wss_on_connection := true;
              wss_clients := [0%nat] |} es Hreach eq_refl eq_refl).
Defined.

Lemma stopStream_torn_down K info s :
  SessInv s -> JsMap.get K (streams s) = Some info ->
  torn_down (fst (stopStream K s)) K info.
Proof.
  intros [_ He _] Hget.
  destruct (He K info Hget) as (_ & srv & ch & Hsrv & _ & _ & Hch & _).
  unfold torn_down. rewrite listed_keys. unfold stopStream. rewrite Hget.
  simpl. rewrite !list_lookup_alter_eq, Hsrv, Hch. simpl.
  split; [apply get_delete_eq|]. split; [|split; by eexists].
  rewrite <- list_elem_of_In. apply get_None_keys, get_delete_eq.
Qed.

(** C8 fails as stated: with one viewer connected to the relay of the
    session on port 9900, the exit of the child leaves that viewer's socket
    OPEN, so the relay is not shut down as the specification has it. *)
Lemma exit_leaves_viewers_connected :
  let s := run [HttpStart "src://cam1" 9900 Listens SpawnRuns;
                WsConnection 0; StdoutData 0 "A"] init in
  let s' := next s (ChildClose 0 (Some 1)) in
  reachable s /\
  JsMap.get 9900 (streams s)
  = Some {| rtspUrl := "src://cam1"; wss := 0; ffmpeg := 0; totalBytes := 0 |}
  /\ listed s' = []
  /\ sockets s' !! 0%nat
     = Some {| ws_server := 0; readyState := 1; sent := ["A"%string] |}
  /\ ~ relay_shut_down s' 0
  /\ ~ relay_shut_down (next s (ChildError 0 "EPIPE")) 0.
Proof.
  intros s s'. split; [apply reachable_run, reachable_init|].
  repeat (split; [reflexivity|]).
  split; intros [_ Hall];
    by apply (Hall 0%nat
                {| ws_server := 0; readyState := 1; sent := ["A"%string] |}).
Qed.

(** C8, amended: when the child process of a registered session exits (the
    ['close'] event, whatever the exit code or signal) or fails (the
    ['error'] event), the handler tears the session down by itself: the
    child is sent SIGTERM, [close()] is called on the server, which from
    then on accepts no viewer, while the sockets of the viewers already
    connected stay as they are; the key is removed from [streams] and so
    from the list of [GET /api/streams]. *)
Theorem exit_tears_down K info s :
  reachable s ->
  JsMap.get K (streams s) = Some info ->
  (forall code,
     let s' := next s (ChildClose (ffmpeg info) code) in
     torn_down s' K info /\ listener_closed s s' (wss info)) /\
  (forall err,
     let s' := next s (ChildError (ffmpeg info) err) in
     torn_down s' K info /\ listener_closed s s' (wss info)).
Proof.
  intros Hreach Hget.
  pose proof (SessInv_reachable s Hreach) as Hinv.
  destruct (inv_entry s Hinv K info Hget)
    as (_ & srv & ch & _ & _ & _ & Hch & Hport & _).
  split.
  - intros code s'. subst s'. unfold next. simpl. unfold on_close.
    rewrite Hch, Hport.
    set (s0 := console_log _ s).
    assert (Hinv0 : SessInv s0)
      by (by eapply SessInv_same; [apply same_console_log|]).
    split; [by apply stopStream_torn_down|].
    exact (stopStream_listener_closed K info s0 Hinv0 Hget).
  - intros err s'. subst s'. unfold next. simpl. unfold on_error.
    rewrite Hch, Hport.
    set (s0 := console_error _ s).
    assert (Hinv0 : SessInv s0)
      by (by eapply SessInv_same; [apply same_console_error|]).
    split; [by apply stopStream_torn_down|].
    exact (stopStream_listener_closed K info s0 Hinv0 Hget).
Qed.

Lemma exit_tears_down_witness :
  let s := run [HttpStart "src://cam1" 9900 Listens SpawnRuns;
                WsConnection 0] init in
  JsMap.get 9900 (streams s)
  = Some {| rtspUrl := "src://cam1"; wss := 0; ffmpeg := 0; totalBytes := 0 |}
  /\ listed s = [9900]
  /\ listed (next s (ChildClose 0 None)) = []
  /\ clients_of 0 (next s (ChildClose 0 None)) = [0%nat]
  /\ torn_down (next s (ChildClose 0 None)) 9900
       {| rtspUrl := "src://cam1"; wss := 0; ffmpeg := 0; totalBytes := 0 |}.
Proof.
  intros s. split; [reflexivity|]. split; [reflexivity|].
  split; [reflexivity|]. split; [reflexivity|].
  apply (proj1 (proj1 (exit_tears_down 9900
                         {| rtspUrl := "src://cam1"; wss := 0; ffmpeg := 0;
                            totalBytes := 0 |} s
                         (reachable_run _ init reachable_init) eq_refl)
                      None)).
Defined.

Lemma append_nil_l (s : string) : EmptyString +:+ s = s.
Proof. reflexivity. Qed.

Lemma append_cons_l (a : ascii) (s t : string) :
  String a s +:+ t = String a (s +:+ t).
Proof. reflexivity. Qed.

Lemma prefix_app_iff (n s : string) :
  String.prefix n s = true <-> exists post, s = n +:+ post.
Proof.
  revert s. induction n as [|a n IH]; intros s.
  - split; [intros _; exists s; reflexivity | by destruct s].
  - destruct s as [|b s].
    { split; [discriminate|]. intros [post E]. by rewrite append_cons_l in E. }
    change (String.prefix (String a n) (String b s))
      with (if ascii_dec a b then String.prefix n s else false).
    destruct (ascii_dec a b) as [->|Hne].
    + rewrite IH. split; intros [post E]; exists post.
      * by rewrite append_cons_l, E.
      * rewrite append_cons_l in E. congruence.
    + split; [done|]. intros [post E]. rewrite append_cons_l in E.
      congruence.
Qed.

(** [includes] decides whether the needle occurs in the string. *)
Lemma includes_occurs s needle :
  JsString.includes s needle = true <-> occurs needle s.
Proof.
  unfold occurs. induction s as [|a s IH]; cbn [JsString.includes].
  - rewrite orb_false_r, prefix_app_iff. split.
    + intros [post E]. exists EmptyString, post. by rewrite append_nil_l.
    + intros (pre & post & E). destruct pre as [|b pre].
      * rewrite append_nil_l in E. by exists post.
      * by rewrite append_cons_l in E.
  - rewrite orb_true_iff, prefix_app_iff, IH. split.
    + intros [[post E]|(pre & post & E)].
      * exists EmptyString, post. by rewrite append_nil_l.
      * exists (String a pre), post. by rewrite append_cons_l, E.
    + intros ([|b pre] & post & E).
      * left. rewrite append_nil_l in E. by exists post.
      * right. exists pre, post. rewrite append_cons_l in E. congruence.
Qed.

Lemma with_console_id s : with_console (console s) s = s.
Proof. by destruct s. Qed.

(** C9: of the messages that a child writes to stderr, the handler logs
    exactly those in which the progress marker [frame=] does not occur, each
    one trimmed and prefixed with the port, in the order written, and it
    changes nothing else. *)
Theorem diagnostics_filtered c ch msgs s :
  children s !! c = Some ch ->
  run (map (StderrData c) msgs) s
  = with_console (console s ++ map (diagnostic (cp_wsPort ch)) (relevant msgs))
                 s /\
  (forall msg, In msg (relevant msgs) <-> In msg msgs /\ ~ occurs "frame=" msg).
Proof.
  intros Hc. split.
  - revert s Hc. induction msgs as [|msg msgs IH]; intros s Hc.
    + simpl. by rewrite app_nil_r, with_console_id.
    + cbn [map run fold_left]. unfold next at 2. simpl.
      unfold on_stderr_data. rewrite Hc. unfold relevant. simpl.
      destruct (JsString.includes msg "frame="); simpl.
      * by apply IH.
      * fold (run (map (StderrData c) msgs)). rewrite IH by done. simpl.
        unfold with_console, diagnostic. simpl. by rewrite <- app_assoc.
  - intros msg. unfold relevant. rewrite filter_In, negb_true_iff.
    rewrite <- includes_occurs.
    destruct (JsString.includes msg "frame="); intuition congruence.
Qed.

Lemma diagnostics_filtered_witness :
  let s := run [HttpStart "src://cam1" 9900 Listens SpawnRuns] init in
  console
    (run (map (StderrData 0)
              ["Input #0, rtsp
"; "frame=   25 fps= 25 q=5.0"; "  Stream #0:0: Video "]%string) s)
  = console s ++ [Log "FFmpeg [9900]: Input #0, rtsp";
                  Log "FFmpeg [9900]: Stream #0:0: Video"].
Proof.
  intros s.
  rewrite (proj1 (diagnostics_filtered 0%nat
            {| cp_rtspUrl := "src://cam1"; cp_wsPort := 9900; cp_wss := 0;
               cp_totalBytes := 0; cp_killed := false |} _ s eq_refl)).
  reflexivity.
Defined.

(** C10: the [totalBytes] field of an entry of [streams] is 0 in every
    reachable state, while the local variable [totalBytes] of the handler
    that relays the chunks grows by the length of every chunk. *)
Theorem totalBytes_entry_stays_zero K info es s :
  reachable s ->
  JsMap.get K (streams s) = Some info ->
  totalBytes info = 0 /\
  (forall K' info', JsMap.get K' (streams (run es s)) = Some info' ->
                    totalBytes info' = 0) /\
  exists ch ch',
    children s !! ffmpeg info = Some ch /\
    children (run es s) !! ffmpeg info = Some ch' /\
    cp_totalBytes ch' = cp_totalBytes ch + stdout_bytes (ffmpeg info) es.
Proof.
  intros Hreach Hget.
  pose proof (SessInv_reachable s Hreach) as Hinv.
  destruct (inv_entry s Hinv K info Hget)
    as (Hz & srv & ch & _ & _ & _ & Hch & _).
  split; [done|]. split.
  - intros K' info' Hget'.
    by destruct (inv_entry _ (SessInv_run es s Hinv) K' info' Hget').
  - destruct (child_run es s _ ch Hch) as (ch' & Hch' & _ & _ & Hbytes).
    by exists ch, ch'.
Qed.

Lemma totalBytes_entry_stays_zero_witness :
  let s := run [HttpStart "src://cam1" 9900 Listens SpawnRuns] init in
  let es := [StdoutData 0 "0123456789"; StdoutData 0 "abcde"] in
  JsMap.get 9900 (streams (run es s))
  = Some {| rtspUrl := "src://cam1"; wss := 0; ffmpeg := 0; totalBytes := 0 |}
  /\ exists ch ch',
       children s !! 0%nat = Some ch /\
       children (run es s) !! 0%nat = Some ch' /\
       cp_totalBytes ch' = cp_totalBytes ch + 15.
Proof.
  intros s es. split; [reflexivity|].
  apply (totalBytes_entry_stays_zero 9900
           {| rtspUrl := "src://cam1"; wss := 0; ffmpeg := 0;
              totalBytes := 0 |} es s
           (reachable_run _ init reachable_init) eq_refl).
Defined.

End Claims.

(** * Further properties of the server *)

Section Server.
Import JsMapFacts.

Lemma get_of_entry {V} (K : Z) (v : V) (m : JsMap.t V) :
  NoDup (JsMap.keys m) -> In (K, v) m -> JsMap.get K m = Some v.
Proof.
  induction m as [|[k' v'] m IH]; simpl; [done|].
  intros [Hni Hnd]%NoDup_cons [E|Hin].
  - injection E as -> ->. by rewrite Z.eqb_refl.
  - destruct (Z.eqb_spec k' K) as [->|Hne]; [|by apply IH].
    destruct Hni. apply list_elem_of_In.
    change (In (fst (K, v)) (map fst m)). by apply in_map.
Qed.

Lemma streams_stopStream K s :
  streams (fst (stopStream K s)) = JsMap.delete K (streams s).
Proof.
  unfold stopStream. destruct (JsMap.get K (streams s)) eqn:Hget; [done|].
  simpl. symmetry. by apply delete_absent.
Qed.

Lemma keys_delete_filter {V} (K : Z) (m : JsMap.t V) :
  JsMap.keys (JsMap.delete K m)
  = List.filter (fun k => negb (Z.eqb k K)) (JsMap.keys m).
Proof.
  unfold JsMap.keys. induction m as [|[k v] m IH]; simpl; [done|].
  destruct (Z.eqb_spec k K); simpl; by rewrite IH.
Qed.

(** One event changes [streams] by at most one [set] of an absent key or
    one [delete]. *)
Lemma streams_next s e :
  streams (next s e) = streams s \/
  (exists K info, JsMap.get K (streams s) = None /\
                  streams (next s e) = JsMap.set K info (streams s)) \/
  (exists K, streams (next s e) = JsMap.delete K (streams s)).
Proof.
  unfold next.
  destruct e as [url K listen launch|K| |c data|c data|c code|c err|w|x|x];
    simpl.
  - unfold api_start_stream.
    destruct (JsMap.has K (streams s)) eqn:Hhas; [by left|].
    apply has_false in Hhas. unfold startStream.
    destruct listen; [|by left].
    destruct launch; simpl; [| |by left];
      right; left; by eexists _, _.
  - right; right. exists K. rewrite <- streams_stopStream.
    unfold api_stop_stream. by destruct (stopStream K s).
  - by left.
  - left. unfold on_stdout_data. by destruct (children s !! c).
  - left. unfold on_stderr_data. destruct (children s !! c); [|done].
    by destruct (negb _).
  - unfold on_close. destruct (children s !! c) as [ch|]; [|by left].
    right; right. exists (cp_wsPort ch). by rewrite streams_stopStream.
  - unfold on_error. destruct (children s !! c) as [ch|]; [|by left].
    right; right. exists (cp_wsPort ch). by rewrite streams_stopStream.
  - left. unfold on_ws_connection. by repeat case_match.
  - left. unfold on_ws_closing. by repeat case_match.
  - left. unfold on_ws_close. by repeat case_match.
Qed.

(** A start request answered with success appends its port to the list. *)
Lemma listing_after_start url K listen launch s :
  snd (step (HttpStart url K listen launch) s) = Some (started K) ->
  listed (next s (HttpStart url K listen launch)) = listed s ++ [K].
Proof.
  unfold next. simpl. unfold api_start_stream.
  destruct (JsMap.has K (streams s)) eqn:Hhas; [discriminate|].
  apply has_false in Hhas. rewrite !listed_keys. unfold startStream.
  destruct listen; [|discriminate].
  destruct launch; simpl; [| |discriminate]; intros _;
    by apply keys_set_absent.
Qed.

(** X1: [GET /api/streams] lists every registered port exactly once, in the
    order of insertion into [streams]; each item carries the URL of the
    entry, the address [ws://127.0.0.1:port] and [active: true], and its
    relay and transcoder are live.  The order is that of insertion: the
    items follow the entries of the Map, an event leaves the list as it is,
    appends one port that was not listed, or removes one port and keeps the
    others in their order, and a start answered with success appends its
    port at the end. *)
Theorem streams_listing s :
  reachable s ->
  NoDup (listed s) /\
  (forall K, In K (listed s) <-> JsMap.has K (streams s) = true) /\
  (exists l,
    api_streams s = {| status := 200; body := JsonStreams l |} /\
    map se_port l = map fst (JsMap.entries (streams s)) /\
    forall item, In item l ->
      se_ws_url item = ws_url_of (se_port item) /\
      se_active item = true /\
      exists info,
        JsMap.get (se_port item) (streams s) = Some info /\
        se_rtsp_url item = rtspUrl info /\
        live_relay s (wss info) /\ live_handle s (ffmpeg info)) /\
  (forall e,
     listed (next s e) = listed s \/
     (exists K, ~ In K (listed s) /\ listed (next s e) = listed s ++ [K]) \/
     (exists K, listed (next s e)
                = List.filter (fun k => negb (Z.eqb k K)) (listed s))) /\
  (forall url K listen launch,
     snd (step (HttpStart url K listen launch) s) = Some (started K) ->
     listed (next s (HttpStart url K listen launch)) = listed s ++ [K]).
Proof.
  intros Hreach. destruct (SessInv_reachable s Hreach) as [Hk He Hch].
  split; [by rewrite listed_keys|]. split; [|split; [|split]].
  - intros K. rewrite listed_keys, <- list_elem_of_In.
    destruct (JsMap.has K (streams s)) eqn:Hhas.
    + split; [done|]. intros _.
      destruct (decide (K ∈ JsMap.keys (streams s))) as [|Hn]; [done|].
      apply get_None_keys, has_false in Hn. congruence.
    + apply has_false, get_None_keys in Hhas. split; [done | discriminate].
  - eexists. split; [reflexivity|]. split.
    { rewrite map_map. apply map_ext. by intros [K info]. }
    intros item ([K info] & <- & Hin)%in_map_iff. simpl.
    split; [done|]. split; [done|]. exists info.
    pose proof (get_of_entry K info _ Hk Hin) as Hget.
    destruct (He K info Hget)
      as (_ & srv & ch & Hsrv & _ & Hcl & Hc & _ & _ & Hkl).
    repeat split; [done| |]; by eexists.
  - intros e. rewrite !listed_keys.
    destruct (streams_next s e) as [->|[(K & info & Hget & ->)|(K & ->)]].
    + by left.
    + right; left. exists K. split; [|by apply keys_set_absent].
      rewrite <- list_elem_of_In. by apply get_None_keys.
    + right; right. exists K. apply keys_delete_filter.
  - intros url K listen launch. apply listing_after_start.
Qed.

Lemma streams_listing_witness :
  let s := run [HttpStart "src://cam1" 9901 Listens SpawnRuns;
                HttpStart "src://cam2" 9900 Listens SpawnRuns;
                HttpStart "src://cam3" 9902 Listens SpawnRuns] init in
  listed s = [9901; 9900; 9902] /\
  listed (run [HttpStop 9901;
               HttpStart "src://cam1" 9901 Listens SpawnRuns] s)
  = [9900; 9902; 9901] /\
  NoDup (listed s).
Proof.
  intros s. split; [reflexivity|]. split; [reflexivity|].
  apply (proj1 (streams_listing s (reachable_run _ init reachable_init))).
Defined.

(** X2: after a stop of a registered port, a start request on the same port
    is accepted at once: it registers the new source with a relay and a
    handle of its own, while the old handle stays killed and the old relay
    closed. *)
Theorem stop_then_start url K info listen launch s :
  reachable s ->
  JsMap.get K (streams s) = Some info ->
  thrown listen launch = None ->
  let s1 := next s (HttpStop K) in
  let s2 := next s1 (HttpStart url K listen launch) in
  snd (step (HttpStart url K listen launch) s1) = Some (started K) /\
  JsMap.get K (streams s2)
  = Some {| rtspUrl := url; wss := length (servers s);
            ffmpeg := length (children s); totalBytes := 0 |} /\
  wss info <> length (servers s) /\ ffmpeg info <> length (children s) /\
  ~ live_relay s2 (wss info) /\ ~ live_handle s2 (ffmpeg info) /\
  live_relay s2 (length (servers s)) /\ live_handle s2 (length (children s)).
Proof.
  intros Hreach Hget Hthrown s1 s2.
  pose proof (SessInv_reachable s Hreach) as Hinv.
  destruct (inv_entry s Hinv K info Hget)
    as (_ & srv & ch & Hsrv & _ & _ & Hch & _).
  assert (Hs1 : s1 = fst (stopStream K s)).
  { subst s1. unfold next. simpl. unfold api_stop_stream.
    by destruct (stopStream K s). }
  assert (Habs : JsMap.has K (streams s1) = false).
  { apply has_false. rewrite Hs1. unfold stopStream. rewrite Hget. simpl.
    apply get_delete_eq. }
  assert (Hlen : length (servers s1) = length (servers s) /\
                 length (children s1) = length (children s)).
  { rewrite Hs1. unfold stopStream. rewrite Hget. simpl.
    by rewrite !length_alter. }
  destruct Hlen as [Hls Hlc].
  destruct (start_registers url K listen launch s1 Habs Hthrown)
    as [Hresp Hreg].
  fold s2 in Hreg. rewrite Hls, Hlc in Hreg.
  assert (Hinv2 : SessInv s2) by (by do 2 apply SessInv_next).
  destruct (inv_entry s2 Hinv2 K _ Hreg)
    as (_ & srv2 & ch2 & Hsrv2 & _ & Hcl2 & Hch2 & _ & _ & Hkl2).
  simpl in Hsrv2, Hch2.
  assert (Hwlt : (wss info < length (servers s))%nat)
    by (by eapply lookup_lt_Some).
  assert (Hclt : (ffmpeg info < length (children s))%nat)
    by (by eapply lookup_lt_Some).
  assert (Hold : exists srv' ch',
            servers s1 !! wss info = Some srv' /\ wss_closed srv' = true /\
            children s1 !! ffmpeg info = Some ch' /\ cp_killed ch' = true).
  { rewrite Hs1. unfold stopStream. rewrite Hget. simpl.
    rewrite !list_lookup_alter_eq, Hsrv, Hch. simpl. by eexists _, _. }
  destruct Hold as (srv' & ch' & Hsrv' & Hcl' & Hch' & Hkl').
  assert (Hkeep : servers s2 !! wss info = Some srv' /\
                  children s2 !! ffmpeg info = Some ch').
  { subst s2. unfold next. simpl. unfold api_start_stream. rewrite Habs.
    unfold startStream. destruct listen; [|done].
    destruct launch; try done; simpl;
      (split; [rewrite list_lookup_alter_ne by lia|];
       by apply lookup_app_l_Some). }
  destruct Hkeep as [Hsrv'' Hch''].
  split; [done|]. split; [done|]. split; [lia|]. split; [lia|].
  split; [intros (? & ? & ?); congruence|].
  split; [intros (? & ? & ?); congruence|].
  split; by eexists.
Qed.

Lemma stop_then_start_witness :
  let s := run [HttpStart "src://cam1" 9900 Listens SpawnRuns] init in
  JsMap.get 9900 (streams (run [HttpStop 9900;
                                HttpStart "src://cam2" 9900 Listens SpawnRuns] s))
  = Some {| rtspUrl := "src://cam2"; wss := 1; ffmpeg := 1; totalBytes := 0 |}.
Proof.
  intros s.
  apply (stop_then_start "src://cam2" 9900
           {| rtspUrl := "src://cam1"; wss := 0; ffmpeg := 0;
              totalBytes := 0 |} Listens SpawnRuns s
           (reachable_run _ init reachable_init) eq_refl eq_refl).
Defined.

(** X3: the exit or failure of any child, also one whose session was
    stopped long ago, leaves no session registered on the port that child was
    started for: a session found there, whoever started it, is torn down. *)
Theorem exit_of_any_child c ch s :
  reachable s ->
  children s !! c = Some ch ->
  (forall code,
     JsMap.get (cp_wsPort ch) (streams (next s (ChildClose c code))) = None /\
     forall info, JsMap.get (cp_wsPort ch) (streams s) = Some info ->
                  torn_down (next s (ChildClose c code)) (cp_wsPort ch) info) /\
  (forall err,
     JsMap.get (cp_wsPort ch) (streams (next s (ChildError c err))) = None /\
     forall info, JsMap.get (cp_wsPort ch) (streams s) = Some info ->
                  torn_down (next s (ChildError c err)) (cp_wsPort ch) info).
Proof.
  intros Hreach Hc. pose proof (SessInv_reachable s Hreach) as Hinv.
  assert (Hstop : forall s0,
            same_sessions s s0 ->
            JsMap.get (cp_wsPort ch) (streams (fst (stopStream (cp_wsPort ch) s0)))
            = None /\
            forall info, JsMap.get (cp_wsPort ch) (streams s) = Some info ->
                         torn_down (fst (stopStream (cp_wsPort ch) s0))
                                   (cp_wsPort ch) info).
  { intros s0 Hsame. pose proof (SessInv_same _ _ Hsame Hinv) as Hinv0.
    destruct Hsame as (Hm & _). split.
    - unfold stopStream.
      destruct (JsMap.get (cp_wsPort ch) (streams s0)) eqn:Hget; [|done].
      simpl. apply get_delete_eq.
    - intros info Hget. apply stopStream_torn_down; [done|]. by rewrite Hm. }
  split.
  - intros code. unfold next. simpl. unfold on_close. rewrite Hc.
    apply Hstop, same_console_log.
  - intros err. unfold next. simpl. unfold on_error. rewrite Hc.
    apply Hstop, same_console_error.
Qed.

Lemma exit_of_any_child_witness :
  let s := run [HttpStart "src://cam1" 9900 Listens SpawnRuns; HttpStop 9900;
                HttpStart "src://cam2" 9900 Listens SpawnRuns] init in
  JsMap.has 9900 (streams s) = true /\
  JsMap.get 9900 (streams (next s (ChildClose 0 (Some 255)))) = None.
Proof.
  intros s. split; [reflexivity|].
  apply (proj1 (exit_of_any_child 0%nat
                  {| cp_rtspUrl := "src://cam1"; cp_wsPort := 9900;
                     cp_wss := 0; cp_totalBytes := 0; cp_killed := true |} s
                  (reachable_run _ init reachable_init) eq_refl)
               (Some 255)).
Defined.

(** X4: stopping the stream of one port, by request or because a child
    started for that port exits or fails, leaves the session of every other
    port registered with the same relay and handle, both still live. *)
Theorem teardown_keeps_other_sessions K K' w' c' s :
  reachable s ->
  registered s K' w' c' ->
  K <> K' ->
  let kept s' := registered s' K' w' c' /\ live_relay s' w' /\ live_handle s' c'
  in
  kept (next s (HttpStop K)) /\
  (forall c ch code, children s !! c = Some ch -> cp_wsPort ch = K ->
                     kept (next s (ChildClose c code))) /\
  (forall c ch err, children s !! c = Some ch -> cp_wsPort ch = K ->
                    kept (next s (ChildError c err))).
Proof.
  intros Hreach (info & Hget & <- & <-) Hne kept.
  assert (Hkept : forall e,
            JsMap.get K' (streams (next s e)) = Some info -> kept (next s e)).
  { intros e Hget'. subst kept. simpl.
    pose proof (SessInv_next s e (SessInv_reachable s Hreach)) as Hinv.
    destruct (inv_entry _ Hinv K' info Hget')
      as (_ & srv & ch & Hsrv & _ & Hcl & Hc & _ & _ & Hkl).
    split; [by exists info|]. split; by eexists. }
  assert (Hstop : forall s0, streams s0 = streams s ->
            JsMap.get K' (streams (fst (stopStream K s0))) = Some info).
  { intros s0 Hm. unfold stopStream. rewrite Hm.
    destruct (JsMap.get K (streams s)); simpl; rewrite ?Hm; [|done].
    by rewrite get_delete_ne. }
  split; [|split].
  - apply Hkept. unfold next. simpl. unfold api_stop_stream.
    pose proof (Hstop s eq_refl) as H. by destruct (stopStream K s).
  - intros c ch code Hc <-. apply Hkept. unfold next. simpl.
    unfold on_close. rewrite Hc. by apply Hstop.
  - intros c ch err Hc <-. apply Hkept. unfold next. simpl.
    unfold on_error. rewrite Hc. by apply Hstop.
Qed.

Lemma teardown_keeps_other_sessions_witness :
  let s := run [HttpStart "src://cam1" 9900 Listens SpawnRuns;
                HttpStart "src://cam2" 9901 Listens SpawnRuns] init in
  registered (next s (HttpStop 9900)) 9901 1 1 /\
  live_relay (next s (HttpStop 9900)) 1 /\
  live_handle (next s (HttpStop 9900)) 1.
Proof.
  intros s.
  assert (Hreg : registered s 9901 1 1) by (eexists; repeat split; reflexivity).
  assert (Hne : 9900 <> 9901) by (intros H; discriminate H).
  apply (proj1 (teardown_keeps_other_sessions 9900 9901 1%nat 1%nat s
                  (reachable_run _ init reachable_init) Hreg Hne)).
Defined.

(** X5: a chunk written by a transcoder reaches no socket of another relay:
    such a socket is left exactly as it was. *)
Theorem chunk_stays_in_its_relay c ch data x wx s :
  reachable s ->
  children s !! c = Some ch ->
  sockets s !! x = Some wx ->
  ws_server wx <> cp_wss ch ->
  sockets (next s (StdoutData c data)) !! x = Some wx.
Proof.
  intros Hreach Hc Hx Hne.
  destruct (SockInv_reachable s Hreach) as [_ Hcl].
  unfold next. simpl. unfold on_stdout_data. rewrite Hc. simpl.
  unfold clients_of. simpl.
  destruct (servers s !! cp_wss ch) as [srv|] eqn:Hsrv.
  - destruct (Hcl _ _ Hsrv) as (Hnd & Hall).
    rewrite (broadcast_lookup _ _ _ _ _ Hnd Hx). f_equal.
    apply decide_False. intros [Hin _].
    destruct (Hall _ Hin) as (ws & Hl & Hs). congruence.
  - simpl. done.
Qed.

Lemma chunk_stays_in_its_relay_witness :
  let s := run [HttpStart "src://cam1" 9900 Listens SpawnRuns;
                HttpStart "src://cam2" 9901 Listens SpawnRuns;
                WsConnection 0; WsConnection 1] init in
  map sent (sockets (next s (StdoutData 1 "B"))) = [[]; ["B"%string]] /\
  sockets (next s (StdoutData 1 "B")) !! 0%nat
  = Some {| ws_server := 0; readyState := 1; sent := [] |}.
Proof.
  intros s. split; [reflexivity|].
  assert (Hne : 0%nat <> 1%nat) by (intros H; discriminate H).
  apply (chunk_stays_in_its_relay 1%nat
           {| cp_rtspUrl := "src://cam2"; cp_wsPort := 9901; cp_wss := 1;
              cp_totalBytes := 0; cp_killed := false |} "B" 0%nat
           {| ws_server := 0; readyState := 1; sent := [] |} s
           (reachable_run _ init reachable_init) eq_refl eq_refl Hne).
Defined.

(** X6: a socket that is not OPEN never becomes OPEN again and is sent
    nothing more, whatever happens afterwards. *)
Theorem closed_socket_receives_nothing es x wx s :
  reachable s ->
  sockets s !! x = Some wx ->
  readyState wx <> 1 ->
  exists wx', sockets (run es s) !! x = Some wx' /\
              readyState wx' <> 1 /\ sent wx' = sent wx.
Proof.
  intros Hreach. pose proof (SockInv_reachable s Hreach) as Hinv.
  clear Hreach. revert s wx Hinv.
  induction es as [|e es IH]; intros s wx Hinv Hx Hno; [by exists wx|].
  destruct (socket_next s e x wx Hinv Hx)
    as (ws1 & Hx1 & _ & Hr1 & Hsent1 & _).
  rewrite decide_False, app_nil_r in Hsent1 by done.
  destruct (IH (next s e) ws1 (SockInv_next _ _ Hinv) Hx1)
    as (wx' & Hx' & Hno' & Hsent'); [tauto|].
  exists wx'. split; [done|]. split; [done | congruence].
Qed.

Lemma closed_socket_receives_nothing_witness :
  let s := run [HttpStart "src://cam1" 9900 Listens SpawnRuns;
                WsConnection 0; StdoutData 0 "A"; WsClosing 0] init in
  exists wx', sockets (run [StdoutData 0 "B"; WsClose 0; StdoutData 0 "C"] s)
                !! 0%nat = Some wx' /\
              readyState wx' <> 1 /\ sent wx' = ["A"%string].
Proof.
  intros s.
  assert (Hno : (2 : Z) <> 1) by (intros H; discriminate H).
  apply (closed_socket_receives_nothing
           [StdoutData 0 "B"; WsClose 0; StdoutData 0 "C"] 0%nat
           {| ws_server := 0; readyState := 2; sent := ["A"%string] |} s
           (reachable_run _ init reachable_init) eq_refl Hno).
Defined.

Lemma streams_stop_all ks s :
  streams (fold_left (fun s port => fst (stopStream port s)) ks s)
  = fold_left (fun m k => JsMap.delete k m) ks (streams s).
Proof.
  revert s. induction ks as [|k ks IH]; intros s; [done|].
  simpl. by rewrite IH, streams_stopStream.
Qed.

Lemma delete_all {V} ks (m : JsMap.t V) :
  (forall k, k ∈ JsMap.keys m -> k ∈ ks) ->
  fold_left (fun m k => JsMap.delete k m) ks m = [].
Proof.
  revert m. induction ks as [|k ks IH]; intros m Hsub.
  - destruct m as [|[k v] m]; [done|].
    specialize (Hsub k). simpl in Hsub.
    by destruct (elem_of_nil k) as [[] _]; apply Hsub; left.
  - simpl. apply IH. intros k' Hin.
    assert (k' <> k).
    { intros ->.
      by apply (proj1 (get_None_keys k (JsMap.delete k m))
                      (get_delete_eq k m)). }
    apply keys_delete_sub, Hsub in Hin.
    apply elem_of_cons in Hin as [|]; done.
Qed.

Lemma SessInv_stop_all ks s :
  SessInv s -> SessInv (fold_left (fun s port => fst (stopStream port s)) ks s).
Proof.
  revert s. induction ks as [|k ks IH]; intros s Hinv; [done|].
  simpl. by apply IH, SessInv_stopStream.
Qed.

Lemma console_stopStream K s :
  console (fst (stopStream K s)) = console s.
Proof. unfold stopStream. by destruct (JsMap.get K (streams s)). Qed.

Lemma console_stop_all ks s :
  console (fold_left (fun s port => fst (stopStream port s)) ks s) = console s.
Proof.
  revert s. induction ks as [|k ks IH]; intros s; [done|].
  simpl. by rewrite IH, console_stopStream.
Qed.

(** X7: the SIGINT handler logs its line first and then stops every stream:
    afterwards [streams] is empty, every child process that [startStream]
    spawned has been sent SIGTERM, and every relay that such a child fed is
    closed.  ([children] holds the processes of [startStream]; the probe of
    [/api/check-ffmpeg] is outside the model.) *)
Theorem sigint_stops_everything s :
  reachable s ->
  console (on_sigint s)
  = console s ++ [Log (String "010" "Shutting down...")] /\
  streams (on_sigint s) = [] /\
  listed (on_sigint s) = [] /\
  (forall c, ~ live_handle (on_sigint s) c) /\
  (forall w, fed (on_sigint s) w -> ~ live_relay (on_sigint s) w).
Proof.
  intros Hreach. pose proof (SessInv_reachable s Hreach) as Hinv.
  set (l := String "010" "Shutting down...").
  assert (Hinv' : SessInv (console_log l s)).
  { eapply SessInv_same; [apply same_console_log | done]. }
  assert (Hempty : streams (on_sigint s) = []).
  { unfold on_sigint. rewrite streams_stop_all. by apply delete_all. }
  destruct (SessInv_stop_all (JsMap.keys (streams s)) _ Hinv') as [_ _ Hch].
  change (fold_left _ _ _) with (on_sigint s) in Hch.
  rewrite Hempty in Hch.
  split; [unfold on_sigint; by rewrite console_stop_all|].
  split; [done|]. split; [by rewrite listed_keys, Hempty|]. split.
  - intros c (ch & Hc & Hlive).
    destruct (Hch c ch Hc) as (srv & _ & _ & Hreg).
    rewrite Hlive in Hreg. by destruct Hreg as (info & ? & _).
  - intros w (c & ch & Hc & <-) (srv & Hsrv & Hlive).
    destruct (Hch c ch Hc) as (srv' & Hsrv' & _ & Hreg).
    assert (srv' = srv) as -> by congruence.
    destruct (cp_killed ch); [congruence|].
    by destruct Hreg as (info & ? & _).
Qed.

Lemma sigint_stops_everything_witness :
  let s := run [HttpStart "src://cam1" 9900 Listens SpawnRuns;
                HttpStart "src://cam2" 9901 Listens SpawnRuns;
                HttpStop 9900;
                HttpStart "src://cam3" 9902 Listens SpawnRuns] init in
  listed s = [9901; 9902] /\
  map cp_killed (children (on_sigint s)) = [true; true; true] /\
  last (console (on_sigint s)) = Some (Log (String "010" "Shutting down...")) /\
  streams (on_sigint s) = [].
Proof.
  intros s. split; [reflexivity|]. split; [reflexivity|].
  split; [reflexivity|].
  apply (proj1 (proj2 (sigint_stops_everything s
                         (reachable_run _ init reachable_init)))).
Defined.

(** One event: a relay keeps its port, stays closed once closed and then
    gains no client; a child stays killed once killed. *)
Lemma relay_next s e w srv :
  servers s !! w = Some srv ->
  exists srv', servers (next s e) !! w = Some srv' /\
    wss_port srv' = wss_port srv /\
    (wss_closed srv = true ->
     wss_closed srv' = true /\ wss_clients srv' ⊆ wss_clients srv).
Proof.
  intros Hw.
  assert (Hwlt : (w < length (servers s))%nat) by (by eapply lookup_lt_Some).
  assert (Hsame : servers (next s e) = servers s ->
            exists srv', servers (next s e) !! w = Some srv' /\
              wss_port srv' = wss_port srv /\
              (wss_closed srv = true ->
               wss_closed srv' = true /\ wss_clients srv' ⊆ wss_clients srv)).
  { intros ->. by exists srv. }
  assert (Hstop : forall K s0, servers s0 = servers s ->
            exists srv', servers (fst (stopStream K s0)) !! w = Some srv' /\
              wss_port srv' = wss_port srv /\
              (wss_closed srv = true ->
               wss_closed srv' = true /\ wss_clients srv' ⊆ wss_clients srv)).
  { intros K s0 Hs0. unfold stopStream.
    destruct (JsMap.get K (streams s0)) as [info|]; simpl; rewrite Hs0;
      [|by exists srv].
    rewrite list_lookup_alter. case_decide; [|by exists srv].
    subst. rewrite Hw. simpl. eexists. by repeat split. }
  unfold next in *.
  destruct e as [url K listen launch|K| |c data|c data|c code|c err|w'|x|x];
    simpl in *.
  - unfold api_start_stream.
    destruct (JsMap.has K (streams s)); [by exists srv|].
    unfold startStream. destruct listen; [|by exists srv].
    destruct launch; simpl;
      rewrite ?list_lookup_alter_ne by lia;
      exists srv; (split; [by apply lookup_app_l_Some | done]).
  - unfold api_stop_stream.
    destruct (Hstop K s eq_refl) as (srv' & ? & ?).
    destruct (stopStream K s). by exists srv'.
  - by exists srv.
  - apply Hsame. unfold on_stdout_data. by destruct (children s !! c).
  - apply Hsame. unfold on_stderr_data. destruct (children s !! c); [|done].
    by destruct (negb _).
  - unfold on_close. destruct (children s !! c); [|by exists srv].
    by apply Hstop.
  - unfold on_error. destruct (children s !! c); [|by exists srv].
    by apply Hstop.
  - unfold on_ws_connection.
    destruct (servers s !! w') as [srv0|] eqn:Hw'; [|by exists srv].
    destruct (wss_closed srv0) eqn:Hcl0; [by exists srv|].
    assert (Hgoal : exists srv',
              <[w':={| wss_port := wss_port srv0; wss_closed := false;
                       wss_on_connection := wss_on_connection srv0;
                       wss_clients := wss_clients srv0
                                      ++ [length (sockets s)] |}]>
                (servers s) !! w = Some srv' /\
              wss_port srv' = wss_port srv /\
              (wss_closed srv = true ->
               wss_closed srv' = true /\ wss_clients srv' ⊆ wss_clients srv)).
    { destruct (decide (w' = w)) as [->|Hne].
      - rewrite list_lookup_insert_eq by done. eexists. split; [done|].
        assert (srv0 = srv) as -> by congruence. simpl.
        split; [done|]. congruence.
      - rewrite list_lookup_insert_ne by done. by exists srv. }
    by destruct (wss_on_connection srv0).
  - apply Hsame. unfold on_ws_closing.
    destruct (sockets s !! x) as [ws|]; [|done]. by destruct (_ =? _).
  - unfold on_ws_close. destruct (sockets s !! x) as [ws|]; [|by exists srv].
    destruct (readyState ws =? 3); [by exists srv|].
    cbn zeta. cbn [servers with_sockets].
    destruct (servers s !! ws_server ws) as [srv0|] eqn:Hw0; [|by exists srv].
    assert (Hgoal : exists srv',
              <[ws_server ws:=
                  {| wss_port := wss_port srv0; wss_closed := wss_closed srv0;
                     wss_on_connection := wss_on_connection srv0;
                     wss_clients :=
                       filter (fun y => negb (Nat.eqb y x))
                              (wss_clients srv0) |}]>
                (servers s) !! w = Some srv' /\
              wss_port srv' = wss_port srv /\
              (wss_closed srv = true ->
               wss_closed srv' = true /\ wss_clients srv' ⊆ wss_clients srv)).
    { destruct (decide (ws_server ws = w)) as [E|Hne].
      - rewrite E, list_lookup_insert_eq by done. eexists. split; [done|].
        rewrite E in Hw0. assert (srv0 = srv) as -> by congruence. simpl.
        split; [done|]. intros Hcl. split; [done|].
        intros y Hy. by apply list_elem_of_filter in Hy as [_ ?].
      - rewrite list_lookup_insert_ne by done. by exists srv. }
    by destruct (wss_on_connection srv0).
Qed.

Lemma killed_next s e c ch :
  children s !! c = Some ch -> cp_killed ch = true ->
  exists ch', children (next s e) !! c = Some ch' /\ cp_killed ch' = true.
Proof.
  intros Hc Hkilled.
  assert (Hstop : forall K s0, children s0 = children s ->
            exists ch', children (fst (stopStream K s0)) !! c = Some ch' /\
                        cp_killed ch' = true).
  { intros K s0 Hs0. unfold stopStream.
    destruct (JsMap.get K (streams s0)) as [info|]; simpl; rewrite Hs0;
      [|by exists ch].
    rewrite list_lookup_alter. case_decide; [|by exists ch].
    subst. rewrite Hc. simpl. by eexists. }
  unfold next.
  destruct e as [url K listen launch|K| |c' data|c' data|c' code|c' err|w|x|x];
    simpl.
  - exists ch. split; [|done]. unfold api_start_stream.
    destruct (JsMap.has K (streams s)); [done|].
    pose proof (child_startStream url K listen launch s c ch Hc) as H.
    by destruct (startStream url K listen launch s) as [s' [r|msg]].
  - unfold api_stop_stream. destruct (Hstop K s eq_refl) as (ch' & ? & ?).
    destruct (stopStream K s). by exists ch'.
  - by exists ch.
  - unfold on_stdout_data.
    destruct (children s !! c') as [ch0|] eqn:Hc'; [|by exists ch]. simpl.
    destruct (decide (c' = c)) as [->|Hne].
    + rewrite list_lookup_insert_eq by (by eapply lookup_lt_Some).
      assert (ch0 = ch) as -> by congruence. by eexists.
    + rewrite list_lookup_insert_ne by done. by exists ch.
  - exists ch. split; [|done]. unfold on_stderr_data.
    destruct (children s !! c'); [|done]. by destruct (negb _).
  - unfold on_close. destruct (children s !! c'); [|by exists ch].
    by apply Hstop.
  - unfold on_error. destruct (children s !! c'); [|by exists ch].
    by apply Hstop.
  - exists ch. split; [|done]. unfold on_ws_connection.
    destruct (servers s !! w) as [srv|]; [|done].
    destruct (wss_closed srv); [done|]. by destruct (wss_on_connection srv).
  - exists ch. split; [|done]. unfold on_ws_closing.
    destruct (sockets s !! x) as [ws|]; [|done]. by destruct (_ =? _).
  - exists ch. split; [|done]. unfold on_ws_close.
    destruct (sockets s !! x) as [ws|]; [|done].
    destruct (_ =? _); [done|]. simpl.
    destruct (servers s !! ws_server ws) as [srv|]; [|done].
    by destruct (wss_on_connection srv).
Qed.

(** X20: teardown is final.  Through any later events a relay keeps its
    port, a relay that was closed stays closed and gains no client, and a
    child that was killed stays killed: a new start on the same port gets new
    objects and never revives the old ones. *)
Theorem teardown_is_final es s :
  (forall w srv,
     servers s !! w = Some srv ->
     exists srv', servers (run es s) !! w = Some srv' /\
       wss_port srv' = wss_port srv /\
       (wss_closed srv = true ->
        wss_closed srv' = true /\ wss_clients srv' ⊆ wss_clients srv)) /\
  (forall c ch,
     children s !! c = Some ch -> cp_killed ch = true ->
     exists ch', children (run es s) !! c = Some ch' /\ cp_killed ch' = true).
Proof.
  revert s. induction es as [|e es IH]; intros s.
  { split; [intros w srv Hw; by exists srv | intros c ch Hc Hk; by exists ch]. }
  destruct (IH (next s e)) as [IHs IHc]. split.
  - intros w srv Hw.
    destruct (relay_next s e w srv Hw) as (srv1 & Hw1 & Hp1 & Hcl1).
    destruct (IHs w srv1 Hw1) as (srv' & Hw' & Hp' & Hcl').
    exists srv'. split; [done|]. split; [congruence|].
    intros Hcl. destruct (Hcl1 Hcl) as [Hc1 Hsub1].
    destruct (Hcl' Hc1) as [Hc' Hsub']. split; [done|]. by etrans.
  - intros c ch Hc Hk.
    destruct (killed_next s e c ch Hc Hk) as (ch1 & Hc1 & Hk1).
    by apply (IHc c ch1).
Qed.

End Server.

(** * Properties of the browser client *)

Module AppFacts.
Import JsMapFacts.

Lemma includes_In (l : list Z) (x : Z) :
  JsArray.includes l x = true <-> In x l.
Proof.
  unfold JsArray.includes. rewrite existsb_exists. split.
  - intros (y & Hin & ->%Z.eqb_eq). done.
  - intros Hin. exists x. by rewrite Z.eqb_refl.
Qed.

(** The ports of [used] that are at least [p]. *)
Lemma above_step (used : list Z) (p : Z) :
  (length (List.filter (fun u => (p + 1 <=? u)%Z) used)
   <= length (List.filter (fun u => (p <=? u)%Z) used))%nat /\
  (In p used ->
   (length (List.filter (fun u => (p + 1 <=? u)%Z) used)
    < length (List.filter (fun u => (p <=? u)%Z) used))%nat).
Proof.
  induction used as [|u used [IHle IHlt]]; simpl; [split; [lia | done]|].
  destruct (Z.leb_spec (p + 1) u), (Z.leb_spec p u); simpl; try lia;
    (split; [lia|]; intros [->|Hin]; [lia|]; specialize (IHlt Hin); lia).
Qed.

Lemma nextFree_spec (fuel : nat) (used : list Z) (p : Z) :
  (length (List.filter (fun u => (p <=? u)%Z) used) <= fuel)%nat ->
  ~ In (App.nextFree fuel used p) used /\
  p <= App.nextFree fuel used p <= p + Z.of_nat fuel /\
  (forall q, p <= q < App.nextFree fuel used p -> In q used).
Proof.
  revert p. induction fuel as [|fuel IH]; intros p Hcnt; simpl.
  - split; [|split; [lia | intros q; lia]].
    intros Hin. destruct (above_step used p) as [_ Hlt].
    specialize (Hlt Hin). lia.
  - destruct (JsArray.includes used p) eqn:Hinc.
    + apply includes_In in Hinc. destruct (above_step used p) as [_ Hlt].
      specialize (Hlt Hinc).
      destruct (IH (p + 1)) as (Hfree & Hrange & Hleast); [lia|].
      split; [done|]. split; [lia|]. intros q Hq.
      destruct (decide (q = p)) as [->|Hne]; [done|]. apply Hleast. lia.
    + split; [|split; [lia | intros q; lia]].
      intros Hin%includes_In. congruence.
Qed.

(** X9: [getNextPort] returns the lowest port from 9900 upwards that no
    camera of the list uses; the loop has left by itself after at most one
    increment per camera, so more iterations change nothing. *)
Theorem getNextPort_lowest_free (cams : list App.Camera) :
  let used := map App.cam_wsPort cams in
  ~ In (App.getNextPort cams) used /\
  App.BASE_WS_PORT <= App.getNextPort cams
    <= App.BASE_WS_PORT + Z.of_nat (length cams) /\
  (forall q, App.BASE_WS_PORT <= q < App.getNextPort cams -> In q used) /\
  (forall fuel, (length cams <= fuel)%nat ->
                App.nextFree fuel used App.BASE_WS_PORT = App.getNextPort cams).
Proof.
  intros used.
  assert (Hcnt : forall fuel, (length cams <= fuel)%nat ->
            (length (List.filter (fun u => (App.BASE_WS_PORT <=? u)%Z) used)
             <= fuel)%nat).
  { intros fuel Hfuel. etrans; [apply filter_length_le|].
    subst used. by rewrite length_map. }
  assert (Hget : App.getNextPort cams
                 = App.nextFree (length cams) used App.BASE_WS_PORT).
  { unfold App.getNextPort. destruct cams as [|c cams]; [done|].
    simpl. by rewrite length_map. }
  destruct (nextFree_spec (length cams) used App.BASE_WS_PORT)
    as (Hfree & Hrange & Hleast); [by apply Hcnt|].
  rewrite Hget. split; [done|]. split; [done|]. split; [done|].
  intros fuel Hfuel.
  destruct (nextFree_spec fuel used App.BASE_WS_PORT)
    as (Hfree' & Hrange' & Hleast'); [by apply Hcnt|].
  destruct (Z.lt_trichotomy (App.nextFree fuel used App.BASE_WS_PORT)
              (App.nextFree (length cams) used App.BASE_WS_PORT))
    as [Hlt|[Heq|Hgt]]; [|done|].
  - destruct Hfree'. apply Hleast. lia.
  - destruct Hfree. apply Hleast'. lia.
Qed.

(** X10: [addCamera] refuses an empty name or URL and then leaves the list
    as it is; otherwise it appends one inactive camera on the port given by
    [getNextPort].  Either way, cameras that had pairwise distinct ports
    still have. *)
Theorem addCamera_ports_distinct (now : Z) (app : App.AppState) :
  NoDup (map App.cam_wsPort (App.cameras app)) ->
  NoDup (map App.cam_wsPort (App.cameras (App.addCamera now app))) /\
  (App.new_name app = ""%string \/ App.new_rtspUrl app = ""%string ->
   App.cameras (App.addCamera now app) = App.cameras app) /\
  (App.new_name app <> ""%string -> App.new_rtspUrl app <> ""%string ->
   App.cameras (App.addCamera now app)
   = App.cameras app
     ++ [{| App.cam_id := now; App.cam_name := App.new_name app;
            App.cam_rtspUrl := App.new_rtspUrl app;
            App.cam_wsPort := App.getNextPort (App.cameras app);
            App.cam_active := false; App.cam_wsUrl := None |}]).
Proof.
  intros Hnd. unfold App.addCamera.
  destruct (String.eqb_spec (App.new_name app) "") as [Hn|Hn];
    destruct (String.eqb_spec (App.new_rtspUrl app) "") as [Hu|Hu];
    simpl; try (split; [done|]; split; [done|]; congruence).
  split; [|split; [tauto | done]].
  rewrite map_app. apply NoDup_app. split; [done|].
  split; [|apply NoDup_singleton].
  intros x Hx ->%list_elem_of_singleton.
  apply list_elem_of_In in Hx.
  by destruct (getNextPort_lowest_free (App.cameras app)) as [Hfree _].
Qed.

Lemma addCamera_ports_distinct_witness :
  let app := {| App.cameras :=
                  [{| App.cam_id := 1; App.cam_name := "gate";
                      App.cam_rtspUrl := "rtsp://a"; App.cam_wsPort := 9900;
                      App.cam_active := false; App.cam_wsUrl := None |};
                   {| App.cam_id := 2; App.cam_name := "yard";
                      App.cam_rtspUrl := "rtsp://b"; App.cam_wsPort := 9902;
                      App.cam_active := false; App.cam_wsUrl := None |}];
                App.currentTab := 0; App.app_status := "";
                App.new_name := "door"; App.new_rtspUrl := "rtsp://c";
                App.showAddForm := true |} in
  map App.cam_wsPort (App.cameras (App.addCamera 3 app)) = [9900; 9902; 9901]
  /\ NoDup (map App.cam_wsPort (App.cameras (App.addCamera 3 app))).
Proof.
  intros app. split; [reflexivity|].
  apply (addCamera_ports_distinct 3 app).
  repeat constructor; simpl; intros H;
    repeat (apply elem_of_cons in H as [H|H]; [discriminate H|]);
    by apply elem_of_nil in H.
Defined.

Lemma pages_concat (cams : list App.Camera) (first n : nat) :
  concat (map (fun tab => App.getCurrentPageCameras tab cams) (seq first n))
  = take (n * App.CAMERAS_PER_PAGE) (drop (first * App.CAMERAS_PER_PAGE) cams).
Proof.
  revert first. induction n as [|n IH]; intros first; [done|].
  cbn [seq map concat]. rewrite IH.
  unfold App.getCurrentPageCameras, JsArray.slice.
  replace (first * App.CAMERAS_PER_PAGE + App.CAMERAS_PER_PAGE
           - first * App.CAMERAS_PER_PAGE)%nat
    with App.CAMERAS_PER_PAGE by lia.
  replace (S first * App.CAMERAS_PER_PAGE)%nat
    with (first * App.CAMERAS_PER_PAGE + App.CAMERAS_PER_PAGE)%nat by lia.
  rewrite <- drop_drop, take_take_drop. f_equal.
Qed.

(** X11: the pages partition the camera list: the pages [0 .. totalTabs-1]
    put one after the other give back the list, in order; a page holds at
    most four cameras, a page below [totalTabs] of a list that is not empty
    holds at least one, and a page from [totalTabs] on holds none. *)
Theorem pages_partition (cams : list App.Camera) :
  concat (map (fun tab => App.getCurrentPageCameras tab cams)
              (seq 0 (App.totalTabs cams))) = cams /\
  (1 <= App.totalTabs cams)%nat /\
  (forall tab,
     (length (App.getCurrentPageCameras tab cams)
      <= App.CAMERAS_PER_PAGE)%nat) /\
  (forall tab, (App.totalTabs cams <= tab)%nat ->
               App.getCurrentPageCameras tab cams = []) /\
  (forall tab, (tab < App.totalTabs cams)%nat -> cams <> [] ->
               App.getCurrentPageCameras tab cams <> []).
Proof.
  assert (Hdiv : (length cams
                  <= (length cams + 3) / 4 * 4 < length cams + 4)%nat).
  { pose proof (Nat.div_mod_eq (length cams + 3) 4).
    pose proof (Nat.mod_upper_bound (length cams + 3) 4). lia. }
  assert (Htabs : (length cams <= App.totalTabs cams * 4)%nat /\
                  (1 <= App.totalTabs cams)%nat /\
                  (cams <> [] -> App.totalTabs cams * 4 < length cams + 4)%nat).
  { unfold App.totalTabs, App.CAMERAS_PER_PAGE. simpl Nat.sub.
    split; [lia|]. split; [lia|]. intros Hne.
    destruct cams as [|c cams]; [done|]. simpl length in *. lia. }
  destruct Htabs as (Hcover & Hone & Htight).
  split; [|split; [done|split; [|split]]].
  - rewrite pages_concat. simpl drop. apply take_ge.
    unfold App.CAMERAS_PER_PAGE. lia.
  - intros tab. unfold App.getCurrentPageCameras, JsArray.slice.
    rewrite length_take. lia.
  - intros tab Htab. unfold App.getCurrentPageCameras, JsArray.slice.
    rewrite drop_ge; [by rewrite take_nil|].
    unfold App.CAMERAS_PER_PAGE. lia.
  - intros tab Htab Hne Hpage. specialize (Htight Hne).
    apply (f_equal length) in Hpage. revert Hpage.
    unfold App.getCurrentPageCameras, JsArray.slice.
    rewrite length_take, length_drop. unfold App.CAMERAS_PER_PAGE. simpl. lia.
Qed.

Lemma mark_id camId active wsUrl cams :
  (forall c, In c cams -> App.cam_id c = camId ->
             App.cam_active c = active /\ App.cam_wsUrl c = wsUrl) ->
  App.mark camId active wsUrl cams = cams.
Proof.
  intros H. unfold App.mark. rewrite <- (map_id cams) at 2.
  apply map_ext_in. intros c Hin.
  destruct (Z.eqb_spec (App.cam_id c) camId) as [E|]; [|done].
  destruct (H c Hin E) as [<- <-]. by destruct c.
Qed.

Lemma mark_mark camId a1 u1 a2 u2 cams :
  App.mark camId a2 u2 (App.mark camId a1 u1 cams) = App.mark camId a2 u2 cams.
Proof.
  unfold App.mark. rewrite map_map. apply map_ext. intros c.
  destruct (Z.eqb_spec (App.cam_id c) camId) as [E|E]; simpl.
  - by destruct (Z.eqb_spec (App.cam_id c) camId).
  - by destruct (Z.eqb_spec (App.cam_id c) camId).
Qed.

(** X12: [startStream] of the client against the server.  When the camera's
    port is free on the server and nothing throws there, the server registers
    the stream and the client marks the cameras with that id active, with the
    address [ws://127.0.0.1:port]; when the port is taken, the server and the
    camera list stay as they are and the status shows the server's message;
    when [fetch] is rejected, nothing but the status changes. *)
Theorem client_start camera listen launch srv app :
  let K := App.cam_wsPort camera in
  let started := App.startStream camera App.Delivered listen launch srv app in
  (JsMap.has K (streams srv) = false -> thrown listen launch = None ->
   JsMap.get K (streams (fst started))
   = Some {| rtspUrl := App.cam_rtspUrl camera; wss := length (servers srv);
             ffmpeg := length (children srv); totalBytes := 0 |} /\
   App.cameras (snd started)
   = App.mark (App.cam_id camera) true (Some (ws_url_of K)) (App.cameras app)
   /\ App.app_status (snd started) = "Started: " +:+ App.cam_name camera) /\
  (JsMap.has K (streams srv) = true ->
   fst started = srv /\ App.cameras (snd started) = App.cameras app /\
   App.app_status (snd started)
   = "Error: Port " +:+ JsString.ofNumber K +:+ " is already in use") /\
  (forall err,
     App.startStream camera (App.Rejected err) listen launch srv app
     = (srv, App.set_status ("Error: " +:+ err) app)).
Proof.
  intros K started. subst started K.
  unfold App.startStream. simpl.
  split; [|split; [|done]].
  - intros Hhas Hthrown.
    destruct (start_registers (App.cam_rtspUrl camera) (App.cam_wsPort camera)
                listen launch srv Hhas Hthrown) as [Hresp Hget].
    unfold next in Hget. simpl in Hresp, Hget.
    destruct (api_start_stream _ _ listen launch srv) as [srv' resp].
    simpl in *. injection Hresp as ->. simpl. done.
  - intros Hhas. unfold api_start_stream. rewrite Hhas. simpl. done.
Qed.

Lemma client_start_witness :
  let camera := {| App.cam_id := 7; App.cam_name := "gate";
                   App.cam_rtspUrl := "rtsp://a"; App.cam_wsPort := 9900;
                   App.cam_active := false; App.cam_wsUrl := None |} in
  let app := {| App.cameras := [camera]; App.currentTab := 0;
                App.app_status := ""; App.new_name := "";
                App.new_rtspUrl := ""; App.showAddForm := false |} in
  JsMap.has 9900 (streams init) = false /\
  App.cameras (snd (App.startStream camera App.Delivered Listens SpawnRuns
                                    init app))
  = [{| App.cam_id := 7; App.cam_name := "gate";
        App.cam_rtspUrl := "rtsp://a"; App.cam_wsPort := 9900;
        App.cam_active := true;
        App.cam_wsUrl := Some "ws://127.0.0.1:9900"%string |}].
Proof.
  intros camera app. split; [reflexivity|].
  apply (proj1 (client_start camera Listens SpawnRuns init app)
               eq_refl eq_refl).
Defined.

Lemma delete_set_absent {V} (K : Z) (v : V) (m : JsMap.t V) :
  JsMap.get K m = None -> JsMap.delete K (JsMap.set K v m) = m.
Proof.
  induction m as [|[k v'] m IH]; simpl; [by rewrite Z.eqb_refl|].
  destruct (Z.eqb_spec k K) as [->|Hne]; [done|]. simpl.
  destruct (Z.eqb_spec k K); [done|]. intros H. by rewrite IH.
Qed.

Lemma streams_start url K listen launch srv :
  JsMap.has K (streams srv) = false -> thrown listen launch = None ->
  streams (next srv (HttpStart url K listen launch))
  = JsMap.set K {| rtspUrl := url; wss := length (servers srv);
                   ffmpeg := length (children srv); totalBytes := 0 |}
              (streams srv).
Proof.
  intros Hhas Hthrown. unfold next. simpl. unfold api_start_stream.
  rewrite Hhas. unfold startStream. destruct listen; [|done].
  by destruct launch.
Qed.

Lemma client_start_server camera listen launch srv app :
  fst (App.startStream camera App.Delivered listen launch srv app)
  = next srv (HttpStart (App.cam_rtspUrl camera) (App.cam_wsPort camera)
                        listen launch).
Proof.
  unfold App.startStream, next. simpl.
  destruct (api_start_stream _ _ listen launch srv) as [srv' [st [r|l]]];
    simpl; [by destruct (success r) | done].
Qed.

Lemma client_stop_delivered camera srv app :
  App.stopStream camera App.Delivered srv app
  = (fst (stopStream (App.cam_wsPort camera) srv),
     App.set_status ("Stopped: " +:+ App.cam_name camera)
       (App.set_cameras
          (App.mark (App.cam_id camera) false None (App.cameras app)) app)).
Proof.
  unfold App.stopStream. simpl. unfold api_stop_stream.
  by destruct (stopStream (App.cam_wsPort camera) srv).
Qed.

(** X13: a start followed by a stop through the client is a round trip: for
    a camera shown inactive whose port is free on the server, the camera list
    is again what it was, and [streams] on the server is again what it
    was. *)
Theorem client_start_stop_round_trip camera listen launch srv app :
  let K := App.cam_wsPort camera in
  let started := App.startStream camera App.Delivered listen launch srv app in
  let stopped :=
    App.stopStream camera App.Delivered (fst started) (snd started) in
  JsMap.has K (streams srv) = false ->
  thrown listen launch = None ->
  (forall c, In c (App.cameras app) -> App.cam_id c = App.cam_id camera ->
             App.cam_active c = false /\ App.cam_wsUrl c = None) ->
  App.cameras (snd stopped) = App.cameras app /\
  streams (fst stopped) = streams srv /\
  App.app_status (snd stopped) = "Stopped: " +:+ App.cam_name camera.
Proof.
  intros K started stopped Hhas Hthrown Hinactive.
  destruct (proj1 (client_start camera listen launch srv app) Hhas Hthrown)
    as (_ & Hcams & _).
  fold K started in Hcams.
  subst stopped. rewrite client_stop_delivered. simpl.
  split; [|split; [|done]].
  - rewrite Hcams, mark_mark. by apply mark_id.
  - rewrite streams_stopStream. subst started.
    rewrite client_start_server, streams_start by done.
    apply delete_set_absent. by apply has_false.
Qed.

Lemma client_start_stop_round_trip_witness :
  let camera := {| App.cam_id := 7; App.cam_name := "gate";
                   App.cam_rtspUrl := "rtsp://a"; App.cam_wsPort := 9901;
                   App.cam_active := false; App.cam_wsUrl := None |} in
  let app := {| App.cameras := [camera]; App.currentTab := 0;
                App.app_status := ""; App.new_name := "";
                App.new_rtspUrl := ""; App.showAddForm := false |} in
  let srv := run [HttpStart "src://cam1" 9900 Listens SpawnRuns] init in
  let started :=
    App.startStream camera App.Delivered Listens SpawnRuns srv app in
  App.cameras (snd started) <> App.cameras app /\
  App.cameras (snd (App.stopStream camera App.Delivered
                                   (fst started) (snd started)))
  = App.cameras app.
Proof.
  intros camera app srv started. split; [discriminate|].
  apply (client_start_stop_round_trip camera Listens SpawnRuns srv app
           eq_refl eq_refl).
  intros c [<-|[]] _. by split.
Defined.

Lemma filter_mark camId active wsUrl cams :
  List.filter (fun c => negb (Z.eqb (App.cam_id c) camId))
              (App.mark camId active wsUrl cams)
  = List.filter (fun c => negb (Z.eqb (App.cam_id c) camId)) cams.
Proof.
  induction cams as [|c cams IH]; simpl; [done|].
  destruct (Z.eqb_spec (App.cam_id c) camId) as [E|E]; simpl.
  - by destruct (Z.eqb_spec (App.cam_id c) camId).
  - destruct (Z.eqb_spec (App.cam_id c) camId); [done|]. simpl.
    by rewrite IH.
Qed.

Lemma NoDup_ports_filter (f : App.Camera -> bool) cams :
  NoDup (map App.cam_wsPort cams) ->
  NoDup (map App.cam_wsPort (List.filter f cams)).
Proof.
  induction cams as [|c cams IH]; simpl; [done|].
  intros [Hni Hnd]%NoDup_cons. destruct (f c); simpl; [|by apply IH].
  apply NoDup_cons. split; [|by apply IH].
  intros Hin. apply Hni.
  apply list_elem_of_In in Hin. apply list_elem_of_In.
  apply in_map_iff in Hin as (c' & E & Hin%filter_In).
  apply in_map_iff. exists c'. tauto.
Qed.

(** X14: [removeCamera] takes the cameras with the given id out of the list
    and keeps the others as they are and in order, with their ports still
    distinct.  The stream of an active camera is stopped on the server when
    the request is delivered; when [fetch] is rejected the camera leaves the
    list all the same and the server is left as it is. *)
Theorem removeCamera_effect camera net srv app :
  let removed := App.removeCamera camera net srv app in
  App.cameras (snd removed)
  = List.filter (fun c => negb (Z.eqb (App.cam_id c) (App.cam_id camera)))
                (App.cameras app) /\
  (NoDup (map App.cam_wsPort (App.cameras app)) ->
   NoDup (map App.cam_wsPort (App.cameras (snd removed)))) /\
  (App.cam_active camera = true -> net = App.Delivered ->
   JsMap.get (App.cam_wsPort camera) (streams (fst removed)) = None) /\
  (App.cam_active camera = false \/ (exists err, net = App.Rejected err) ->
   fst removed = srv).
Proof.
  intros removed.
  assert (Hcams : App.cameras (snd removed)
            = List.filter
                (fun c => negb (Z.eqb (App.cam_id c) (App.cam_id camera)))
                (App.cameras app)).
  { subst removed. unfold App.removeCamera.
    destruct (App.cam_active camera); [|done].
    destruct net as [|err]; [|done].
    rewrite client_stop_delivered. simpl. apply filter_mark. }
  split; [done|]. split; [|split].
  - intros Hnd. rewrite Hcams. by apply NoDup_ports_filter.
  - intros Hactive ->. subst removed. unfold App.removeCamera.
    rewrite Hactive, client_stop_delivered. simpl.
    rewrite streams_stopStream. apply get_delete_eq.
  - subst removed. unfold App.removeCamera.
    intros [->|[err ->]]; [done|]. by destruct (App.cam_active camera).
Qed.

Lemma removeCamera_effect_witness :
  let camera := {| App.cam_id := 7; App.cam_name := "gate";
                   App.cam_rtspUrl := "rtsp://a"; App.cam_wsPort := 9900;
                   App.cam_active := true;
                   App.cam_wsUrl := Some "ws://127.0.0.1:9900"%string |} in
  let other := {| App.cam_id := 8; App.cam_name := "yard";
                  App.cam_rtspUrl := "rtsp://b"; App.cam_wsPort := 9901;
                  App.cam_active := false; App.cam_wsUrl := None |} in
  let app := {| App.cameras := [camera; other]; App.currentTab := 0;
                App.app_status := ""; App.new_name := "";
                App.new_rtspUrl := ""; App.showAddForm := false |} in
  let srv := run [HttpStart "rtsp://a" 9900 Listens SpawnRuns] init in
  App.cameras (snd (App.removeCamera camera App.Delivered srv app)) = [other]
  /\ JsMap.get 9900
       (streams (fst (App.removeCamera camera App.Delivered srv app))) = None.
Proof.
  intros camera other app srv. split; [reflexivity|].
  apply (proj1 (proj2 (proj2
           (removeCamera_effect camera App.Delivered srv app)))
         eq_refl eq_refl).
Defined.

Lemma listed_start url K listen launch srv :
  ~ In K (listed srv) -> thrown listen launch = None ->
  listed (next srv (HttpStart url K listen launch)) = listed srv ++ [K].
Proof.
  intros Hfree Hthrown.
  assert (Hget : JsMap.get K (streams srv) = None).
  { apply get_None_keys. rewrite <- listed_keys. by rewrite list_elem_of_In. }
  rewrite !listed_keys, streams_start; [|by apply has_false | done].
  by apply keys_set_absent.
Qed.

Lemma startAll_fold env cs srv app :
  (forall c, exists listen launch,
     env c = (App.Delivered, listen, launch) /\ thrown listen launch = None) ->
  NoDup (map App.cam_wsPort
             (List.filter (fun c => negb (App.cam_active c)) cs)) ->
  (forall K, In K (map App.cam_wsPort
                       (List.filter (fun c => negb (App.cam_active c)) cs)) ->
             ~ In K (listed srv)) ->
  listed (fst (fold_left
                 (fun '(srv, app) camera =>
                    if negb (App.cam_active camera) then
                      let '(net, listen, launch) := env camera in
                      App.startStream camera net listen launch srv app
                    else (srv, app)) cs (srv, app)))
  = listed srv
    ++ map App.cam_wsPort (List.filter (fun c => negb (App.cam_active c)) cs).
Proof.
  intros Henv. revert srv app.
  induction cs as [|c cs IH]; intros srv app Hnd Hfree; simpl.
  { by rewrite app_nil_r. }
  simpl in Hnd, Hfree. destruct (App.cam_active c); simpl in *.
  { by apply IH. }
  destruct (Henv c) as (listen & launch & -> & Hthrown).
  apply NoDup_cons in Hnd as [Hni Hnd].
  pose proof (client_start_server c listen launch srv app) as Hsrv.
  destruct (App.startStream c App.Delivered listen launch srv app)
    as [srv1 app1].
  simpl in Hsrv. subst srv1.
  assert (Hl : listed (next srv (HttpStart (App.cam_rtspUrl c)
                                   (App.cam_wsPort c) listen launch))
               = listed srv ++ [App.cam_wsPort c]).
  { apply listed_start; [|done]. apply Hfree. by left. }
  rewrite IH, Hl; [by rewrite <- app_assoc | done |].
  intros K HK. rewrite Hl, in_app_iff. intros [Hin|[<-|[]]].
  - by apply (Hfree K); [right|].
  - apply Hni. by apply list_elem_of_In.
Qed.

(** X15: "Start All" registers on the server exactly the cameras of the
    current page that are not shown active, in page order, when every request
    is delivered, nothing throws on the server, and the ports of those
    cameras are distinct and not yet registered. *)
Theorem startAll_registers_page env srv app :
  let page := App.getCurrentPageCameras (App.currentTab app)
                                        (App.cameras app) in
  let wanted :=
    map App.cam_wsPort (List.filter (fun c => negb (App.cam_active c)) page) in
  (forall c, exists listen launch,
     env c = (App.Delivered, listen, launch) /\ thrown listen launch = None) ->
  NoDup wanted ->
  (forall K, In K wanted -> ~ In K (listed srv)) ->
  listed (fst (App.startAllOnPage env srv app)) = listed srv ++ wanted /\
  (length wanted <= App.CAMERAS_PER_PAGE)%nat.
Proof.
  intros page wanted Henv Hnd Hfree. split.
  - by apply startAll_fold.
  - subst wanted. rewrite length_map.
    etrans; [apply filter_length_le|].
    destruct (pages_partition (App.cameras app)) as (_ & _ & Hlen & _).
    apply Hlen.
Qed.

Lemma startAll_registers_page_witness :
  let cam i port active :=
    {| App.cam_id := i; App.cam_name := "cam"; App.cam_rtspUrl := "rtsp://a";
       App.cam_wsPort := port; App.cam_active := active;
       App.cam_wsUrl := None |} in
  let app := {| App.cameras := [cam 1 9900 false; cam 2 9901 true;
                                cam 3 9902 false; cam 4 9903 false;
                                cam 5 9904 false];
                App.currentTab := 0; App.app_status := ""; App.new_name := "";
                App.new_rtspUrl := ""; App.showAddForm := false |} in
  listed (fst (App.startAllOnPage
                 (fun _ => (App.Delivered, Listens, SpawnRuns)) init app))
  = [9900; 9902; 9903].
Proof.
  intros cam app.
  apply (startAll_registers_page
           (fun _ => (App.Delivered, Listens, SpawnRuns)) init app).
  - intros c. by exists Listens, SpawnRuns.
  - repeat constructor; simpl; intros H;
      repeat (apply elem_of_cons in H as [H|H]; [discriminate H|]);
      by apply elem_of_nil in H.
  - intros K _ [].
Defined.

Lemma keys_delete {V} (K : Z) (m : JsMap.t V) :
  JsMap.keys (JsMap.delete K m)
  = List.filter (fun k => negb (Z.eqb k K)) (JsMap.keys m).
Proof.
  unfold JsMap.keys. induction m as [|[k v] m IH]; simpl; [done|].
  destruct (Z.eqb_spec k K); simpl; by rewrite IH.
Qed.

Lemma filter_includes_cons (p : Z) (rest l : list Z) :
  List.filter (fun K => negb (JsArray.includes rest K))
              (List.filter (fun k => negb (Z.eqb k p)) l)
  = List.filter (fun K => negb (JsArray.includes (p :: rest) K)) l.
Proof.
  induction l as [|k l IH]; simpl; [done|].
  destruct (Z.eqb_spec k p); simpl; [done|].
  destruct (JsArray.includes rest k); simpl; by rewrite IH.
Qed.

Lemma stopAll_fold env cs srv app :
  (forall c, env c = App.Delivered) ->
  listed (fst (fold_left
                 (fun '(srv, app) camera =>
                    if App.cam_active camera
                    then App.stopStream camera (env camera) srv app
                    else (srv, app)) cs (srv, app)))
  = List.filter
      (fun K => negb (JsArray.includes
                        (map App.cam_wsPort (List.filter App.cam_active cs)) K))
      (listed srv).
Proof.
  intros Henv. revert srv app.
  induction cs as [|c cs IH]; intros srv app; simpl.
  { induction (listed srv) as [|K l IHl]; simpl; [done|]. by rewrite <- IHl. }
  destruct (App.cam_active c); simpl; [|by apply IH].
  rewrite Henv, client_stop_delivered, IH.
  rewrite !listed_keys, streams_stopStream, keys_delete.
  apply filter_includes_cons.
Qed.

(** X16: "Stop All", when every request is delivered, removes from the
    server's list exactly the ports of the cameras shown active on the
    current page; the other streams stay listed, in their order. *)
Theorem stopAll_unregisters_page env srv app :
  let page := App.getCurrentPageCameras (App.currentTab app)
                                        (App.cameras app) in
  let stopped := map App.cam_wsPort (List.filter App.cam_active page) in
  (forall c, env c = App.Delivered) ->
  listed (fst (App.stopAllOnPage env srv app))
  = List.filter (fun K => negb (JsArray.includes stopped K)) (listed srv) /\
  (forall K, In K stopped ->
             JsMap.get K (streams (fst (App.stopAllOnPage env srv app)))
             = None).
Proof.
  intros page stopped Henv.
  assert (Hl : listed (fst (App.stopAllOnPage env srv app))
               = List.filter (fun K => negb (JsArray.includes stopped K))
                             (listed srv))
    by (by apply stopAll_fold).
  split; [done|]. intros K HK.
  apply get_None_keys. rewrite <- listed_keys, Hl, list_elem_of_In, filter_In.
  intros [_ Hn]. apply includes_In in HK. by rewrite HK in Hn.
Qed.

Lemma stopAll_unregisters_page_witness :
  let cam i port active :=
    {| App.cam_id := i; App.cam_name := "cam"; App.cam_rtspUrl := "rtsp://a";
       App.cam_wsPort := port; App.cam_active := active;
       App.cam_wsUrl := None |} in
  let app := {| App.cameras := [cam 1 9900 true; cam 2 9901 false;
                                cam 3 9902 true];
                App.currentTab := 0; App.app_status := ""; App.new_name := "";
                App.new_rtspUrl := ""; App.showAddForm := false |} in
  let srv := run [HttpStart "rtsp://a" 9900 Listens SpawnRuns;
                  HttpStart "rtsp://a" 9901 Listens SpawnRuns;
                  HttpStart "rtsp://a" 9902 Listens SpawnRuns] init in
  listed (fst (App.stopAllOnPage (fun _ => App.Delivered) srv app)) = [9901].
Proof.
  intros cam app srv.
  apply (proj1 (stopAll_unregisters_page (fun _ => App.Delivered) srv app
                  (fun _ => eq_refl))).
Defined.

End AppFacts.

(** * Properties of the search for the transcoder *)

Module DiscoveryFacts.
Import Discovery.

Section FileSystem.
Variable readdirSync : string -> Completion (list Dirent).
Variable join : string -> string -> string.
Variable existsSync : string -> bool.

Lemma firstFound_Some {A B} (f : A -> option B) (l : list A) (y : B) :
  firstFound f l = Some y -> exists x, In x l /\ f x = Some y.
Proof.
  induction l as [|x l IH]; simpl; [done|].
  destruct (f x) as [y'|] eqn:Hx.
  - intros [= ->]. exists x. by split; [left|].
  - intros (x' & Hin & Hx')%IH. exists x'. by split; [right|].
Qed.

Lemma firstFound_is_Some {A B} (f : A -> option B) (l : list A) (x : A) :
  In x l -> is_Some (f x) -> is_Some (firstFound f l).
Proof.
  induction l as [|x' l IH]; simpl; [done|].
  intros [->|Hin] Hx.
  - destruct Hx as [y ->]. by eexists.
  - destruct (f x'); [by eexists | by apply IH].
Qed.

(** The recursion, as the source writes it. *)
Lemma searchFFmpegInDir_eq dir depth :
  searchFFmpegInDir readdirSync join dir depth
  = if (3 <? depth)%nat then None
    else match readdirSync dir with
         | Thrown _ => None
         | Returned items =>
             match List.find isFFmpegExe items with
             | Some item => Some (join dir (d_name item))
             | None =>
                 firstFound
                   (fun item =>
                      if isSearched item
                      then searchFFmpegInDir readdirSync join
                             (join dir (d_name item)) (depth + 1)
                      else None)
                   items
             end
         end.
Proof.
  unfold searchFFmpegInDir. destruct (Nat.ltb_spec 3 depth) as [Hd|Hd].
  - by replace (4 - depth)%nat with 0%nat by lia.
  - by replace (4 - depth)%nat with (S (4 - (depth + 1))) by lia.
Qed.

Lemma search_sound levels dir path :
  search readdirSync join levels dir = Some path ->
  exists n dir', (n < levels)%nat /\
                 reaches readdirSync join n dir dir' /\
                 holds readdirSync join dir' path.
Proof.
  revert dir. induction levels as [|levels IH]; intros dir; simpl; [done|].
  destruct (readdirSync dir) as [items|msg] eqn:Hdir; [|done].
  destruct (List.find isFFmpegExe items) as [item|] eqn:Hfind.
  - intros [= <-]. apply find_some in Hfind as [Hin Hexe].
    unfold isFFmpegExe, isFile in Hexe.
    apply andb_true_iff in Hexe as [Hfile Hname%String.eqb_eq].
    exists 0%nat, dir. split; [lia|]. split; [constructor|].
    exists items, item. repeat split; try done.
    by destruct (d_kind item).
  - intros (item & Hin & Hsub)%firstFound_Some.
    destruct (isSearched item) eqn:Hs; [|done].
    destruct (IH _ Hsub) as (n & dir' & Hn & Hreach & Hholds).
    exists (S n), dir'. split; [lia|]. split; [|done].
    by econstructor.
Qed.

Lemma search_complete n dir dir' path levels :
  reaches readdirSync join n dir dir' ->
  holds readdirSync join dir' path ->
  (n < levels)%nat ->
  is_Some (search readdirSync join levels dir).
Proof.
  intros Hreach Hholds. revert levels.
  induction Hreach as [dir|n dir items item dir' Hdir Hin Hs Hreach IH];
    intros levels Hn; (destruct levels as [|levels]; [lia|]); simpl.
  - destruct Hholds as (items & item & -> & Hin & Hkind & Hname & _).
    destruct (List.find isFFmpegExe items) eqn:Hfind; [by eexists|].
    eapply find_none in Hfind; [|done].
    unfold isFFmpegExe, isFile in Hfind.
    rewrite Hkind, Hname in Hfind. done.
  - rewrite Hdir. destruct (List.find isFFmpegExe items); [by eexists|].
    apply (firstFound_is_Some _ _ item); [done|]. rewrite Hs.
    apply IH; [done | lia].
Qed.

(** X17: a path returned by [searchFFmpegInDir] names a file, called
    [ffmpeg.exe] in some mix of upper and lower case, of the directory
    searched or of a directory at most three levels below it (from a start at
    depth 0), reached through readable directories and sub-directories whose
    names do not start with a dot.  Beyond depth 3, and for a directory that
    cannot be read, the search returns null. *)
Theorem searchFFmpegInDir_sound dir depth path :
  searchFFmpegInDir readdirSync join dir depth = Some path ->
  exists n dir', (depth + n <= 3)%nat /\
                 reaches readdirSync join n dir dir' /\
                 holds readdirSync join dir' path.
Proof.
  unfold searchFFmpegInDir.
  intros (n & dir' & Hn & Hreach & Hholds)%search_sound.
  exists n, dir'. split; [lia | done].
Qed.

(** X18: the search is complete within its bounds: when the executable is a
    file of a directory that lies at most three levels below the start,
    through readable directories whose names do not start with a dot, the
    search returns a path (one that X17 describes). *)
Theorem searchFFmpegInDir_complete n dir dir' path depth :
  reaches readdirSync join n dir dir' ->
  holds readdirSync join dir' path ->
  (depth + n <= 3)%nat ->
  is_Some (searchFFmpegInDir readdirSync join dir depth).
Proof.
  intros Hreach Hholds Hn. unfold searchFFmpegInDir.
  eapply search_complete; [done | done | lia].
Qed.

(** What the search does not enter. *)
Lemma searchFFmpegInDir_none dir depth :
  ((3 < depth)%nat \/ exists msg, readdirSync dir = Thrown msg) ->
  searchFFmpegInDir readdirSync join dir depth = None.
Proof.
  rewrite searchFFmpegInDir_eq.
  destruct (Nat.ltb_spec 3 depth); [done|].
  intros [?|[msg ->]]; [lia | done].
Qed.

(** X19: [findFFmpeg] returns [FFMPEG_PATH] unchecked when it is set and
    not empty; otherwise the bare command [ffmpeg] when [ffmpeg -version]
    exits with status 0; otherwise a path that [existsSync] accepts, the one
    found in the WinGet packages before the fixed locations, or else the bare
    command [ffmpeg]. *)
Theorem findFFmpeg_result env :
  let result := findFFmpeg readdirSync join existsSync env in
  let unset := env_FFMPEG_PATH env = None
               \/ env_FFMPEG_PATH env = Some ""%string in
  (forall path, env_FFMPEG_PATH env = Some path -> path <> ""%string ->
                result = path) /\
  (unset -> probe_status env = Some 0 -> result = "ffmpeg"%string) /\
  (unset -> result = "ffmpeg"%string \/ existsSync result = true) /\
  (forall found,
     unset -> probe_status env <> Some 0 ->
     searchWinget readdirSync join existsSync env = Some found ->
     existsSync found = true -> result = found).
Proof.
  intros result unset. subst result unset. unfold findFFmpeg.
  assert (Hlocate :
    (probe_status env = Some 0 ->
     locate readdirSync join existsSync env = "ffmpeg"%string) /\
    (locate readdirSync join existsSync env = "ffmpeg"%string \/
     existsSync (locate readdirSync join existsSync env) = true) /\
    (forall found,
       probe_status env <> Some 0 ->
       searchWinget readdirSync join existsSync env = Some found ->
       existsSync found = true ->
       locate readdirSync join existsSync env = found)).
  { unfold locate. split; [by intros ->|]. split.
    - destruct (match probe_status env with
                | Some status => status =? 0 | None => false end);
        [by left|].
      destruct (List.find existsSync _) as [p|] eqn:Hfind; [|by left].
      right. by apply find_some in Hfind as [_ ?].
    - intros found Hprobe -> Hex.
      destruct (probe_status env) as [status|]; simpl.
      + destruct (Z.eqb_spec status 0) as [->|]; [done|]. by rewrite Hex.
      + by rewrite Hex. }
  destruct Hlocate as (Hprobe & Hclass & Hwinget).
  split; [|split; [|split]].
  - intros path -> Hne. by destruct (String.eqb_spec path "").
  - intros [->| ->] Hp; by apply Hprobe.
  - intros [->| ->]; apply Hclass.
  - intros found [->| ->] Hp Hs Hex; by apply Hwinget.
Qed.

End FileSystem.

Lemma searchFFmpegInDir_sound_witness :
  searchFFmpegInDir readdir_sample join_sample
    "home/AppData/Local/Microsoft/WinGet/Packages/Gyan.FFmpeg" 0
  = Some "home/AppData/Local/Microsoft/WinGet/Packages/Gyan.FFmpeg/build/bin/FFmpeg.EXE"%string
  /\ exists n dir',
       (0 + n <= 3)%nat /\
       reaches readdir_sample join_sample n
         "home/AppData/Local/Microsoft/WinGet/Packages/Gyan.FFmpeg" dir' /\
       holds readdir_sample join_sample dir'
         "home/AppData/Local/Microsoft/WinGet/Packages/Gyan.FFmpeg/build/bin/FFmpeg.EXE".
Proof.
  split; [reflexivity|].
  apply (searchFFmpegInDir_sound readdir_sample join_sample
           "home/AppData/Local/Microsoft/WinGet/Packages/Gyan.FFmpeg" 0
           "home/AppData/Local/Microsoft/WinGet/Packages/Gyan.FFmpeg/build/bin/FFmpeg.EXE"
           eq_refl).
Defined.

Lemma searchFFmpegInDir_complete_witness :
  is_Some (searchFFmpegInDir readdir_sample join_sample
             "home/AppData/Local/Microsoft/WinGet/Packages/Gyan.FFmpeg" 0).
Proof.
  assert (Hholds : holds readdir_sample join_sample
            "home/AppData/Local/Microsoft/WinGet/Packages/Gyan.FFmpeg/build/bin"
            "home/AppData/Local/Microsoft/WinGet/Packages/Gyan.FFmpeg/build/bin/FFmpeg.EXE").
  { eexists _, {| d_name := "FFmpeg.EXE"; d_kind := IsFile |}.
    split; [reflexivity|]. split; [by left|]. by repeat split. }
  assert (Hreach : reaches readdir_sample join_sample 2
            "home/AppData/Local/Microsoft/WinGet/Packages/Gyan.FFmpeg"
            "home/AppData/Local/Microsoft/WinGet/Packages/Gyan.FFmpeg/build/bin").
  { eapply (reaches_down _ _ 1 _ _ {| d_name := "build";
                                      d_kind := IsDirectory |});
      [reflexivity | by right; right; left | reflexivity |].
    eapply (reaches_down _ _ 0 _ _ {| d_name := "bin";
                                      d_kind := IsDirectory |});
      [reflexivity | by left | reflexivity |].
    apply reaches_here. }
  assert (Hn : (0 + 2 <= 3)%nat) by lia.
  apply (searchFFmpegInDir_complete readdir_sample join_sample 2 _ _ _ 0
           Hreach Hholds Hn).
Defined.

Lemma findFFmpeg_result_witness :
  let env := {| env_FFMPEG_PATH := None; probe_status := Some 127;
                homedir := "home" |} in
  let exists_sample p :=
    match readdir_sample p with
    | Returned _ => true
    | Thrown _ =>
        String.eqb p
          "home/AppData/Local/Microsoft/WinGet/Packages/Gyan.FFmpeg/build/bin/FFmpeg.EXE"
    end in
  findFFmpeg readdir_sample join_sample exists_sample env
  = "home/AppData/Local/Microsoft/WinGet/Packages/Gyan.FFmpeg/build/bin/FFmpeg.EXE"%string.
Proof.
  intros env exists_sample.
  assert (Hprobe : probe_status env <> Some 0) by (intros H; discriminate H).
  apply (proj2 (proj2 (proj2
           (findFFmpeg_result readdir_sample join_sample exists_sample env)))
         _ (or_introl eq_refl) Hprobe eq_refl eq_refl).
Defined.

End DiscoveryFacts.
